(** * HeatFlowSim: explicit finite-difference heat conduction in a rod

    A shallow embedding of [heat_transfer_simulation.py] (the numerical part,
    steps 2 to 5 of the script) and the verification of its specification.

    The script is a sequence of module-level assignments followed by one
    function, [update_temperature], and one driving loop.  The module-level
    constants are the configuration of a run; they are gathered in the record
    [Config], and [shipped] is the configuration written in the file.
    [update_temperature] reads the module-level [nx] in its loop bound, so
    the embedding passes that global as an explicit first argument. *)

From Stdlib Require Import ZArith QArith Qcanon Floats Lia.
From stdpp Require Import base list list_monad numbers.

Open Scope Z_scope.

(** ** Python exceptions and results *)

(** The exceptions the script can raise.  [IndexError] carries what numpy
    prints: "index [index] is out of bounds for axis 0 with size [size]". *)
Inductive exn : Type :=
  | ZeroDivisionError
  | IndexError (index : Z) (size : nat)
  | ValueError
  | OverflowError.

Inductive result (A : Type) : Type :=
  | Ok (a : A)
  | Raise (e : exn).
Arguments Ok {A} a.
Arguments Raise {A} e.

#[global] Instance result_ret : MRet result := λ A a, Ok a.
#[global] Instance result_bind : MBind result := λ A B f m,
  match m with
  | Ok a => f a
  | Raise e => Raise e
  end.
#[global] Instance result_fmap : FMap result := λ A B f m,
  match m with
  | Ok a => Ok (f a)
  | Raise e => Raise e
  end.

(** [for x in xs: s = body(x, s)], stopping at the first exception. *)
Fixpoint for_each {A S : Type} (xs : list A) (body : A → S → result S) (s : S)
  : result S :=
  match xs with
  | [] => Ok s
  | x :: xs' => s' ← body x s; for_each xs' body s'
  end.

(** Python's [range(a, b)] on integers: empty when [b <= a]. *)
Definition range (a b : Z) : list Z :=
  (λ k : nat, a + Z.of_nat k) <$> seq 0 (Z.to_nat (b - a)).

(** ** Float arithmetic as an interface

    All numbers of the script are binary64 floats (Python [float] and numpy
    [float64]).  The structural properties of the program use no law of
    arithmetic, so they are proved for every implementation of the
    operations below.  Two implementations follow: [Binary64], the
    arithmetic of the script, and [Exact], the same operations on the
    rational numbers, in which the specification's statements about real
    numbers are read. *)
Class Float64 (F : Type) : Type := {
  fone : F;                       (* 1.0, the entries of np.ones *)
  ftwo : F;                       (* the literal 2 promoted to a float *)
  fadd : F → F → F;               (* x + y *)
  fsub : F → F → F;               (* x - y *)
  fmul : F → F → F;               (* x * y *)
  ftruediv : F → F → result F;    (* x / y on Python floats *)
  fpow2 : F → result F;           (* x ** 2 on a Python float *)
  of_int : Z → result F;          (* int promoted to float in int/float mixes *)
  to_int : F → result Z           (* int(x) *)
}.

(** ** numpy one-dimensional arrays *)

Section Arrays.
Context {F : Type}.

(** Position of index [i] in an array of [n] cells: negative indices
    count from the end, anything outside [-n, n) is an [IndexError]. *)
Definition locate (n : nat) (i : Z) : result nat :=
  if decide (0 ≤ i < Z.of_nat n) then Ok (Z.to_nat i)
  else if decide (- Z.of_nat n ≤ i < 0) then Ok (Z.to_nat (Z.of_nat n + i))
  else Raise (IndexError i n).

(** [T[i]] *)
Definition getitem (T : list F) (i : Z) : result F :=
  k ← locate (length T) i;
  match T !! k with
  | Some x => Ok x
  | None => Raise (IndexError i (length T))
  end.

(** [T[i] = x], as a new list: the caller threads the array. *)
Definition setitem (T : list F) (i : Z) (x : F) : result (list F) :=
  k ← locate (length T) i;
  Ok (<[k := x]> T).
End Arrays.

(** ** The script *)

Section Script.
Context {F : Type} `{Float64 F}.

(** [alpha * dt / dx**2], evaluated left to right. *)
Definition coefficient (alpha dx dt : F) : result F :=
  let p := fmul alpha dt in
  d ← fpow2 dx;
  ftruediv p d.

(** The body of the [for] loop of [update_temperature] at index [i]:
    [T_new[i] = T[i] + alpha * dt / dx**2 * (T[i + 1] - 2 * T[i] + T[i - 1])].
    The operands are evaluated from left to right, all reads are from the
    argument [T], the only write is to the copy [T_new]. *)
Definition update_point (T : list F) (alpha dx dt : F) (i : Z)
    (T_new : list F) : result (list F) :=
  t_i ← getitem T i;
  r ← coefficient alpha dx dt;
  t_next ← getitem T (i + 1);
  t_i' ← getitem T i;
  t_prev ← getitem T (i - 1);
  setitem T_new i (fadd t_i (fmul r (fadd (fsub t_next (fmul ftwo t_i')) t_prev))).

(** [update_temperature(T, alpha, dx, dt)], with the module-level [nx] it
    reads as first argument.  [T_new = T.copy()] is the initial state of
    the loop. *)
Definition update_temperature (nx : Z) (T : list F) (alpha dx dt : F)
  : result (list F) :=
  let T_new := T in
  for_each (range 1 (nx - 1)) (update_point T alpha dx dt) T_new.
End Script.

(** The module-level constants of step 2 of the script, as one record.
    [rod_length] is the script's [length]. *)
Record Config (F : Type) : Type := {
  rod_length : F;
  nx : Z;
  alpha : F;
  total_time : F;
  dt : F;
  T_left : F;
  T_right : F;
  T_initial : F
}.
Arguments rod_length {F} _.
Arguments nx {F} _.
Arguments alpha {F} _.
Arguments total_time {F} _.
Arguments dt {F} _.
Arguments T_left {F} _.
Arguments T_right {F} _.
Arguments T_initial {F} _.

Section Run.
Context {F : Type} `{Float64 F}.

(** [dx = length / (nx - 1)]: the integer is promoted, then divided by. *)
Definition dx_of (cfg : Config F) : result F :=
  d ← of_int (nx cfg - 1);
  ftruediv (rod_length cfg) d.

(** [nt = int(total_time / dt)] *)
Definition nt_of (cfg : Config F) : result Z :=
  q ← ftruediv (total_time cfg) (dt cfg);
  to_int q.

(** [np.ones(n)]: negative dimensions are a [ValueError].  An array too
    large for the memory of the machine is not modelled. *)
Definition np_ones (n : Z) : result (list F) :=
  if decide (n < 0) then Raise ValueError
  else Ok (replicate (Z.to_nat n) fone).

(** Step 3 of the script:
    [T = np.ones(nx) * T_initial; T[0] = T_left; T[-1] = T_right]. *)
Definition T_init (cfg : Config F) : result (list F) :=
  ones ← np_ones (nx cfg);
  let T := (λ x, fmul x (T_initial cfg)) <$> ones in
  T ← setitem T 0 (T_left cfg);
  setitem T (-1) (T_right cfg).

(** The body of the main loop on the pair of the two variables it
    assigns, [T] and [T_history]:
    [T = update_temperature(T, alpha, dx, dt); T_history.append(T.copy())]. *)
Definition time_step (nx : Z) (alpha dx dt : F) (n : Z)
    (st : list F * list (list F)) : result (list F * list (list F)) :=
  T ← update_temperature nx st.1 alpha dx dt;
  Ok (T, st.2 ++ [T]).

(** [T_history = []; for n in range(nt): ...] from the state [T]. *)
Definition time_loop (nx nt : Z) (T : list F) (alpha dx dt : F)
  : result (list F * list (list F)) :=
  for_each (range 0 nt) (time_step nx alpha dx dt) (T, []).

(** Steps 2 and 3 of the script, in the order of the file: the values of
    [dx], [nt] and [T] when the main loop starts. *)
Definition setup (cfg : Config F) : result (F * Z * list F) :=
  dx ← dx_of cfg;
  nt ← nt_of cfg;
  T ← T_init cfg;
  Ok (dx, nt, T).

(** Steps 2 to 5 of the script: the final values of [T] and [T_history]. *)
Definition simulate (cfg : Config F) : result (list F * list (list F)) :=
  '(dx, nt, T) ← setup cfg;
  time_loop (nx cfg) nt T (alpha cfg) dx (dt cfg).

Definition T_history (cfg : Config F) : result (list (list F)) :=
  snd <$> simulate cfg.
End Run.

(** ** Exact rational arithmetic

    The operations without rounding, overflow or underflow: the only
    exception left is the division by zero.  This is not the arithmetic the
    script runs in; it is the arithmetic of the real numbers, and a theorem
    stated in it says so. *)

Module Exact.
Open Scope Qc_scope.

(** Truncation toward zero, as [int()] does. *)
Definition Qc_trunc (q : Qc) : Z := Z.quot (Qnum q) (Z.pos (Qden q)).

Definition Qc_truediv (x y : Qc) : result Qc :=
  if Qeq_bool y 0 then Raise ZeroDivisionError else Ok (x / y).

#[global] Instance Qc_float : Float64 Qc := {|
  fone := 1;
  ftwo := 2;
  fadd := Qcplus;
  fsub := Qcminus;
  fmul := Qcmult;
  ftruediv := Qc_truediv;
  fpow2 := λ x, Ok (x * x);
  of_int := λ z, Ok (Qc_of_Z z);
  to_int := λ x, Ok (Qc_trunc x)
|}.

(** The rational number [n / d] a decimal literal denotes (Python reads
    the nearest double instead, see [Binary64]). *)
Definition dec (n : Z) (d : positive) : Qc := Q2Qc (n # d).

Definition Qc_min (x y : Qc) : Qc := if decide (x ≤ y) then x else y.
Definition Qc_max (x y : Qc) : Qc := if decide (x ≤ y) then y else x.

(** The bounds of the maximum principle:
    [min(T_left, T_right, T_initial)] and [max(T_left, T_right, T_initial)]. *)
Definition T_min (cfg : Config Qc) : Qc :=
  Qc_min (T_left cfg) (Qc_min (T_right cfg) (T_initial cfg)).
Definition T_max (cfg : Config Qc) : Qc :=
  Qc_max (T_left cfg) (Qc_max (T_right cfg) (T_initial cfg)).

(** The configuration written in the script, its literals read as the
    decimal numbers they denote. *)
Definition shipped : Config Qc := {|
  rod_length := dec 1 1;
  nx := 20;
  alpha := dec 1 10000;
  total_time := dec 10 1;
  dt := dec 1 100;
  T_left := dec 100 1;
  T_right := dec 50 1;
  T_initial := dec 25 1
|}.

(** The derived quantities of [shipped]. *)
Definition shipped_dx : Qc := rod_length shipped / Qc_of_Z (nx shipped - 1).
Definition shipped_r : Qc :=
  alpha shipped * dt shipped / (shipped_dx * shipped_dx).
End Exact.

(** ** Binary64 arithmetic

    The arithmetic of the script: IEEE 754 double precision with rounding to
    nearest even, which is what Python's [float] and numpy's [float64]
    compute, on the kernel's primitive floats. *)

Module Binary64.
#[local] Set Warnings "-inexact-float".
Local Open Scope float_scope.

(** [x / y] on Python floats: a zero divisor, of either sign, raises. *)
Definition b64_truediv (x y : float) : result float :=
  if y =? 0 then Raise ZeroDivisionError else Ok (x / y).

(** [x ** 2] on a Python float: the rounded square; an overflow from a
    finite [x] raises [OverflowError], an underflow gives zero.  (C's [pow]
    returns the rounded square wherever the square is a double.) *)
Definition b64_pow2 (x : float) : result float :=
  let y := x * x in
  if PrimFloat.is_infinity y && PrimFloat.is_finite x
  then Raise OverflowError else Ok y.

(** An [int] promoted to a float: rounded to nearest even, [OverflowError]
    when it is too large. *)
Definition b64_of_int (z : Z) : result float :=
  let x := SF2Prim (binary_normalize 53 1024 z 0 false) in
  if PrimFloat.is_infinity x then Raise OverflowError else Ok x.

(** [int(x)]: truncation toward zero; [OverflowError] on an infinity,
    [ValueError] on a NaN. *)
Definition b64_to_int (x : float) : result Z :=
  match Prim2SF x with
  | S754_zero _ => Ok 0%Z
  | S754_infinity _ => Raise OverflowError
  | S754_nan => Raise ValueError
  | S754_finite s m e =>
      let n := (if 0 <=? e then Z.pos m * 2 ^ e else Z.pos m / 2 ^ (- e))%Z in
      Ok (if s then (- n)%Z else n)
  end.

#[global] Instance b64_float : Float64 float := {|
  fone := 1;
  ftwo := 2;
  fadd := PrimFloat.add;
  fsub := PrimFloat.sub;
  fmul := PrimFloat.mul;
  ftruediv := b64_truediv;
  fpow2 := b64_pow2;
  of_int := b64_of_int;
  to_int := b64_to_int
|}.

(** The configuration written in the script, its literals read as Python
    reads them. *)
Definition shipped : Config float := {|
  rod_length := 1.0;
  nx := 20;
  alpha := 1e-4;
  total_time := 10.0;
  dt := 0.01;
  T_left := 100.0;
  T_right := 50.0;
  T_initial := 25.0
|}.

(** Three grid points on a rod of length 1, so [dx = 0.5]; [alpha * dt =
    0.125], so [alpha * dt / dx**2 = 0.5], the stability bound; [nt = 1].
    Both ends at 1.1, the interior cell at 50. *)
Definition hot_middle : Config float := {|
  rod_length := 1.0;
  nx := 3;
  alpha := 0.125;
  total_time := 1.0;
  dt := 1.0;
  T_left := 1.1;
  T_right := 1.1;
  T_initial := 50.0
|}.


(** Two grid points on a rod of length 0, so [dx = 0.0]; [nt = 3]. *)
Definition two_cells : Config float := {|
  rod_length := 0.0;
  nx := 2;
  alpha := 1e-4;
  total_time := 3.0;
  dt := 1.0;
  T_left := 100.0;
  T_right := 50.0;
  T_initial := 25.0
|}.

(** Four grid points on a rod of length 3, so [dx = 1.0]; [alpha * dt /
    dx**2 = 0.25]; [nt = 4]. *)
Definition four_steps : Config float := {|
  rod_length := 3.0;
  nx := 4;
  alpha := 0.25;
  total_time := 4.0;
  dt := 1.0;
  T_left := 100.0;
  T_right := 50.0;
  T_initial := 25.0
|}.

(** A configuration the specification calls invalid on every count: two
    grid points, a negative rod length (so [dx = -1.0]), a negative time
    step (so [nt = -1000]) and a negative diffusivity. *)
Definition degenerate : Config float := {|
  rod_length := -1.0;
  nx := 2;
  alpha := -1e-4;
  total_time := 10.0;
  dt := -0.01;
  T_left := 100.0;
  T_right := 50.0;
  T_initial := 25.0
|}.

(** The bounds of the maximum principle, and the test that the interior
    cells of a field lie between them. *)
Definition b64_min (x y : float) : float := if x <=? y then x else y.
Definition b64_max (x y : float) : float := if x <=? y then y else x.

Definition T_min (cfg : Config float) : float :=
  b64_min (T_left cfg) (b64_min (T_right cfg) (T_initial cfg)).
Definition T_max (cfg : Config float) : float :=
  b64_max (T_left cfg) (b64_max (T_right cfg) (T_initial cfg)).

Definition interior (T : list float) : list float :=
  take (length T - 2) (drop 1 T).

Definition bounded (cfg : Config float) (T : list float) : bool :=
  forallb (λ x, (T_min cfg <=? x) && (x <=? T_max cfg)) (interior T).
End Binary64.

(** ** The update rule of the specification

    Written from the words of the specification, to compare
    [update_temperature] with: the two end values pass through, every
    interior value [T[i]] becomes
    [T[i] + r * (T[i+1] - 2*T[i] + T[i-1])], all reads from the old state. *)

Section Spec.
Context {F : Type} `{Float64 F}.

Definition ftcs (r x_prev x x_next : F) : F :=
  fadd x (fmul r (fadd (fsub x_next (fmul ftwo x)) x_prev)).

(** The new value at index [i], whose old value is [x]: an index without a
    left or a right neighbour is a boundary. *)
Definition ftcs_point (r : F) (T : list F) (i : nat) (x : F) : F :=
  match i with
  | O => x
  | S j =>
      match T !! j, T !! S i with
      | Some x_prev, Some x_next => ftcs r x_prev x x_next
      | _, _ => x
      end
  end.

Definition ftcs_step (r : F) (T : list F) : list F :=
  imap (ftcs_point r T) T.

(** The update rule applied below index [b] only. *)
Definition ftcs_upto (r : F) (b : nat) (T : list F) : list F :=
  imap (λ i x, if decide (i < b)%nat then ftcs_point r T i x else x) T.

(** The stepper applied [n] times, stopping at the first exception. *)
Fixpoint stepper_iter (nx : Z) (alpha dx dt : F) (n : nat) (T : list F)
  : result (list F) :=
  match n with
  | O => Ok T
  | S n' => T' ← stepper_iter nx alpha dx dt n' T;
            update_temperature nx T' alpha dx dt
  end.
End Spec.

(** The initial field of the specification: [n] cells holding the initial
    temperature (as the script computes it, [1.0 * T_initial]), then cell 0
    overwritten with [T_left] and the last cell with [T_right]. *)
Definition initial_state {F : Type} `{Float64 F} (cfg : Config F) : list F :=
  let n := Z.to_nat (nx cfg) in
  <[(n - 1)%nat := T_right cfg]>
    (<[0%nat := T_left cfg]> (replicate n (fmul fone (T_initial cfg)))).

(** ** Step 6 of the script: what is handed to the plot *)

Section Presentation.
Context {F : Type} `{Float64 F}.

(** [time_points = [0, nt // 4, nt // 2, nt - 1]]; [//] is floor division. *)
Definition time_points (nt : Z) : list Z :=
  [0; nt `div` 4; nt `div` 2; nt - 1].

(** The arguments of one [plt.plot] call of the last loop, in the order
    they are evaluated: the row [T_history[time_point]], then the number
    [time_point * dt] the label prints. *)
Definition plot_curve (dt : F) (T_history : list (list F)) (time_point : Z)
  : result (F * list F) :=
  row ← getitem T_history time_point;
  t ← of_int time_point;
  Ok (fmul t dt, row).

(** The script up to its last loop: the labelled curves it draws, one per
    time point.  [np.array(T_history)] keeps the rows and their order. *)
Definition plotted_curves (cfg : Config F) : result (list (F * list F)) :=
  '(dx, nt, T) ← setup cfg;
  '(T, T_history) ← time_loop (nx cfg) nt T (alpha cfg) dx (dt cfg);
  mapM (plot_curve (dt cfg) T_history) (time_points nt).
End Presentation.

(** ** Basic facts: results, loops, ranges, indexing *)

Lemma for_each_app {A S} (xs ys : list A) (body : A → S → result S) (s : S) :
  for_each (xs ++ ys) body s = for_each xs body s ≫= for_each ys body.
Proof.
  revert s. induction xs as [|x xs IH]; intros s; simpl; [done|].
  destruct (body x s) as [s'|e]; simpl; [apply IH|done].
Qed.

Lemma range_nonneg (a b : Z) :
  0 ≤ a → range a b = Z.of_nat <$> seq (Z.to_nat a) (Z.to_nat (b - a)).
Proof.
  intros Ha. unfold range.
  rewrite <- (Nat.add_0_r (Z.to_nat a)) at 1.
  generalize (Z.to_nat (b - a)), 0%nat.
  intros n; induction n as [|n IH]; intros s; simpl; [done|].
  f_equal; [lia|].
  rewrite IH. by rewrite Nat.add_succ_r.
Qed.

Lemma range_empty (a b : Z) : b ≤ a → range a b = [].
Proof. intros Hab. unfold range. by replace (Z.to_nat (b - a)) with 0%nat by lia. Qed.

Lemma length_range (a b : Z) : length (range a b) = Z.to_nat (b - a).
Proof. unfold range. by rewrite length_fmap, length_seq. Qed.

Section ArrayFacts.
Context {F : Type}.
Implicit Types (T : list F) (i : nat) (x : F).

Lemma locate_nat (n i : nat) : (i < n)%nat → locate n (Z.of_nat i) = Ok i.
Proof.
  intros Hi. unfold locate.
  destruct (decide _) as [_|Hn]; [by rewrite Nat2Z.id | lia].
Qed.

Lemma locate_beyond (n : nat) (z : Z) :
  Z.of_nat n ≤ z → locate n z = Raise (IndexError z n).
Proof.
  intros Hz. unfold locate.
  destruct (decide _); [lia|]. destruct (decide _); [lia|done].
Qed.

Lemma locate_last (n : nat) : (0 < n)%nat → locate n (-1) = Ok (n - 1)%nat.
Proof.
  intros Hn. unfold locate.
  destruct (decide _); [lia|]. destruct (decide _); [|lia].
  f_equal. lia.
Qed.

Lemma getitem_nat T i x : T !! i = Some x → getitem T (Z.of_nat i) = Ok x.
Proof.
  intros Hx. unfold getitem.
  rewrite locate_nat by (by eapply lookup_lt_Some). simpl. by rewrite Hx.
Qed.

Lemma getitem_beyond T (z : Z) :
  Z.of_nat (length T) ≤ z → getitem T z = Raise (IndexError z (length T)).
Proof. intros Hz. unfold getitem. by rewrite locate_beyond. Qed.

Lemma getitem_Ok T (z : Z) x :
  0 ≤ z → getitem T z = Ok x → T !! Z.to_nat z = Some x.
Proof.
  intros Hz. unfold getitem, locate.
  destruct (decide _); simpl; [|destruct (decide _); [lia|done]].
  destruct (T !! Z.to_nat z); [by intros [= ->]|done].
Qed.

Lemma setitem_nat T i x :
  (i < length T)%nat → setitem T (Z.of_nat i) x = Ok (<[i := x]> T).
Proof. intros Hi. unfold setitem. by rewrite locate_nat. Qed.

Lemma setitem_last T x :
  (0 < length T)%nat → setitem T (-1) x = Ok (<[(length T - 1)%nat := x]> T).
Proof. intros Hn. unfold setitem. by rewrite locate_last. Qed.
End ArrayFacts.

(** ** The stepper against the update rule *)

Section StepperFacts.
Context {F : Type} `{Float64 F}.
Implicit Types (T : list F) (r alpha dx dt : F).

Lemma lookup_ftcs_upto r b T i :
  ftcs_upto r b T !! i
  = (λ x, if decide (i < b)%nat then ftcs_point r T i x else x) <$> T !! i.
Proof. unfold ftcs_upto. by rewrite list_lookup_imap. Qed.

Lemma lookup_ftcs_step r T i :
  ftcs_step r T !! i = ftcs_point r T i <$> T !! i.
Proof. unfold ftcs_step. by rewrite list_lookup_imap. Qed.

Lemma length_ftcs_upto r b T : length (ftcs_upto r b T) = length T.
Proof. unfold ftcs_upto. by rewrite length_imap. Qed.

Lemma length_ftcs_step r T : length (ftcs_step r T) = length T.
Proof. unfold ftcs_step. by rewrite length_imap. Qed.

Lemma ftcs_upto_boundary r b T : (b ≤ 1)%nat → ftcs_upto r b T = T.
Proof.
  intros Hb. apply list_eq; intros i. rewrite lookup_ftcs_upto.
  destruct (T !! i) as [x|]; simpl; [|done].
  destruct (decide _); [|done]. by replace i with 0%nat by lia.
Qed.

Lemma ftcs_upto_all r b T :
  (length T - 1 ≤ b)%nat → ftcs_upto r b T = ftcs_step r T.
Proof.
  intros Hb. apply list_eq; intros i.
  rewrite lookup_ftcs_upto, lookup_ftcs_step.
  destruct (T !! i) as [x|] eqn:Hi; simpl; [|done].
  destruct (decide _) as [|Hge]; [done|].
  apply lookup_lt_Some in Hi. f_equal.
  destruct i as [|j]; simpl; [done|].
  rewrite (lookup_ge_None_2 T (S (S j))) by lia.
  by destruct (T !! j).
Qed.

(** One iteration at an index that has both neighbours. *)
Lemma update_point_interior T alpha dx dt r j T_new x_prev x x_next :
  coefficient alpha dx dt = Ok r →
  T !! j = Some x_prev → T !! S j = Some x → T !! S (S j) = Some x_next →
  length T_new = length T →
  update_point T alpha dx dt (Z.of_nat (S j)) T_new
  = Ok (<[S j := ftcs r x_prev x x_next]> T_new).
Proof.
  intros Hr Hp Hx Hn Hlen. unfold update_point.
  rewrite (getitem_nat _ _ _ Hx). simpl. rewrite Hr. simpl.
  replace (Z.of_nat (S j) + 1) with (Z.of_nat (S (S j))) by lia.
  replace (Z.of_nat (S j) - 1) with (Z.of_nat j) by lia.
  rewrite (getitem_nat _ _ _ Hn), (getitem_nat _ _ _ Hp). simpl.
  apply setitem_nat. rewrite Hlen. by eapply lookup_lt_Some.
Qed.

(** The loop over the indices [1 .. n], all of them interior. *)
Lemma loop_prefix T alpha dx dt r n :
  coefficient alpha dx dt = Ok r →
  (S n < length T)%nat →
  for_each (Z.of_nat <$> seq 1 n) (update_point T alpha dx dt) T
  = Ok (ftcs_upto r (S n) T).
Proof.
  intros Hr. induction n as [|n IH]; intros Hn.
  { simpl. by rewrite ftcs_upto_boundary. }
  rewrite seq_S, fmap_app, for_each_app, IH by lia. simpl.
  destruct (lookup_lt_is_Some_2 T n) as [x_prev Hp]; [lia|].
  destruct (lookup_lt_is_Some_2 T (S n)) as [x Hx]; [lia|].
  destruct (lookup_lt_is_Some_2 T (S (S n))) as [x_next Hnx]; [lia|].
  rewrite (update_point_interior _ _ _ _ r n _ x_prev x x_next)
    by (done || apply length_ftcs_upto).
  simpl. f_equal. apply list_eq; intros i.
  destruct (decide (i = S n)) as [->|Hne].
  - rewrite list_lookup_insert_eq by (rewrite length_ftcs_upto; lia).
    rewrite lookup_ftcs_upto, Hx. simpl.
    destruct (decide _); [|lia]. by rewrite Hp, Hnx.
  - rewrite list_lookup_insert_ne by done.
    rewrite !lookup_ftcs_upto. destruct (T !! i); simpl; [|done].
    repeat destruct (decide _); done || lia.
Qed.

(** With at most two grid points the loop body never runs. *)
Lemma update_temperature_short nx T alpha dx dt :
  nx ≤ 2 → update_temperature nx T alpha dx dt = Ok T.
Proof. intros Hnx. unfold update_temperature. by rewrite range_empty by lia. Qed.

(** An array at least as long as [nx]: the indices [1 .. nx-2] are
    updated, the rest is the copy. *)
Lemma update_temperature_prefix nx T alpha dx dt r :
  coefficient alpha dx dt = Ok r →
  nx ≤ Z.of_nat (length T) →
  update_temperature nx T alpha dx dt = Ok (ftcs_upto r (Z.to_nat (nx - 1)) T).
Proof.
  intros Hr Hlen. destruct (decide (nx ≤ 2)) as [Hs|Hl].
  { rewrite update_temperature_short by done.
    by rewrite ftcs_upto_boundary by lia. }
  unfold update_temperature. rewrite range_nonneg by lia.
  change (Z.to_nat 1) with 1%nat.
  rewrite (loop_prefix _ _ _ _ r) by (done || lia).
  do 2 f_equal. lia.
Qed.

(** An array of exactly [nx] cells: the update rule of the specification. *)
Lemma update_temperature_exact nx T alpha dx dt r :
  coefficient alpha dx dt = Ok r →
  Z.of_nat (length T) = nx →
  update_temperature nx T alpha dx dt = Ok (ftcs_step r T).
Proof.
  intros Hr Hlen. rewrite (update_temperature_prefix _ _ _ _ _ r) by (done || lia).
  by rewrite ftcs_upto_all by lia.
Qed.

(** An array shorter than [nx]: the loop runs past the last cell. *)
Lemma update_temperature_overrun nx T alpha dx dt :
  (2 ≤ length T)%nat → Z.of_nat (length T) < nx →
  update_temperature nx T alpha dx dt
  = match coefficient alpha dx dt with
    | Ok _ => Raise (IndexError (Z.of_nat (length T)) (length T))
    | Raise e => Raise e
    end.
Proof.
  intros Hlo Hhi. unfold update_temperature. rewrite range_nonneg by lia.
  change (Z.to_nat 1) with 1%nat.
  destruct (coefficient alpha dx dt) as [r|e] eqn:Hr.
  - replace (Z.to_nat (nx - 1 - 1))
      with ((length T - 2) + S (Z.to_nat (nx - 1 - Z.of_nat (length T))))%nat
      by lia.
    rewrite seq_app, fmap_app, for_each_app.
    rewrite (loop_prefix _ _ _ _ r) by (done || lia).
    destruct (lookup_lt_is_Some_2 T (length T - 1)) as [x Hx]; [lia|].
    simpl. unfold update_point.
    replace (S (length T - 2)) with (length T - 1)%nat by lia.
    rewrite (getitem_nat _ _ _ Hx). simpl. rewrite Hr. simpl.
    rewrite (getitem_beyond T (Z.of_nat (length T - 1) + 1)) by lia.
    simpl. do 2 f_equal. lia.
  - replace (Z.to_nat (nx - 1 - 1)) with (S (Z.to_nat (nx - 3))) by lia.
    destruct (lookup_lt_is_Some_2 T 1) as [y Hy]; [lia|].
    simpl. unfold update_point.
    rewrite (getitem_nat T 1 y Hy). simpl. by rewrite Hr.
Qed.
End StepperFacts.

(** ** The driving loop *)

Section LoopFacts.
Context {F : Type} `{Float64 F}.
Implicit Types (T : list F) (r alpha dx dt : F) (hist : list (list F)).

Lemma mapM_snoc {A B} (f : A → result B) (l : list A) (x : A) :
  mapM f (l ++ [x]) = ys ← mapM f l; y ← f x; Ok (ys ++ [y]).
Proof.
  induction l as [|a l IH]; simpl.
  - by destruct (f x).
  - destruct (f a) as [b|e]; simpl; [|done]. rewrite IH.
    destruct (mapM f l) as [ys|e]; simpl; [|done]. by destruct (f x).
Qed.

Lemma mapM_Ok_lookup {A B} (f : A → result B) (l : list A) (ys : list B) :
  mapM f l = Ok ys ↔
  length ys = length l ∧ ∀ k x y, l !! k = Some x → ys !! k = Some y → f x = Ok y.
Proof.
  revert ys. induction l as [|a l IH]; intros ys; simpl.
  - split.
    + intros [= <-]. split; [done|]. by intros [|k] x y.
    + intros [Hlen _]. by destruct ys.
  - destruct (f a) as [b|e] eqn:Hfa; simpl.
    + destruct (mapM f l) as [zs|e] eqn:Hl; simpl.
      * split.
        -- intros [= <-]. destruct (proj1 (IH zs) eq_refl) as [Hlen Hzs].
           split; [simpl; by rewrite Hlen|].
           intros [|k] x y; simpl; [by intros [= <-] [= <-]|apply Hzs].
        -- intros [Hlen Hys]. destruct ys as [|y ys]; [done|].
           assert (f a = Ok y) as Hy by (by apply (Hys 0%nat)).
           assert (Ok zs = Ok ys) as [= ->];
             [|change (Ok (b :: ys) = Ok (y :: ys)); congruence].
           apply IH. split; [by injection Hlen|].
           intros k x z. apply (Hys (S k)).
      * split; [done|]. intros [Hlen Hys]. destruct ys as [|y ys]; [done|].
        assert (Raise e = Ok ys); [|done].
        apply IH. split; [by injection Hlen|].
        intros k x z. apply (Hys (S k)).
    + split; [done|]. intros [Hlen Hys]. destruct ys as [|y ys]; [done|].
      assert (f a = Ok y) by (by apply (Hys 0%nat)). congruence.
Qed.

(** After [n] iterations the loop holds the [n]-fold iterate in [T] and the
    iterates [1 .. n] in [T_history]; an exception of the stepper ends it. *)
Lemma time_loop_iterates nx T alpha dx dt (n : nat) :
  for_each (Z.of_nat <$> seq 0 n) (time_step nx alpha dx dt) (T, [])
  = hist ← mapM (λ k, stepper_iter nx alpha dx dt (S k) T) (seq 0 n);
    cur ← stepper_iter nx alpha dx dt n T;
    Ok (cur, hist).
Proof.
  induction n as [|n IH]; [done|].
  rewrite seq_S, fmap_app, for_each_app, IH, mapM_snoc. simpl.
  destruct (mapM _ (seq 0 n)) as [hist|e]; simpl; [|done].
  destruct (stepper_iter nx alpha dx dt n T) as [cur|e]; simpl; [|done].
  unfold time_step. simpl.
  by destruct (update_temperature nx cur alpha dx dt).
Qed.

Lemma time_loop_history nx nt T alpha dx dt :
  snd <$> time_loop nx nt T alpha dx dt
  = mapM (λ k, stepper_iter nx alpha dx dt (S k) T) (seq 0 (Z.to_nat nt)).
Proof.
  unfold time_loop. rewrite range_nonneg by done.
  rewrite Z.sub_0_r. change (Z.to_nat 0) with 0%nat.
  rewrite time_loop_iterates.
  destruct (Z.to_nat nt) as [|n]; [done|].
  rewrite seq_S, mapM_snoc. simpl.
  destruct (mapM _ (seq 0 n)) as [hist|e]; simpl; [|done].
  by destruct (stepper_iter nx alpha dx dt n T ≫= _).
Qed.

(** On arrays of [nx] cells the iterated stepper is the iterated update
    rule. *)
Lemma stepper_iter_exact nx T alpha dx dt r (n : nat) :
  coefficient alpha dx dt = Ok r →
  Z.of_nat (length T) = nx →
  stepper_iter nx alpha dx dt n T = Ok (Nat.iter n (ftcs_step r) T)
  ∧ length (Nat.iter n (ftcs_step r) T) = length T.
Proof.
  intros Hr Hlen. induction n as [|n [IH IHlen]]; [done|]. simpl.
  rewrite IH. simpl. rewrite length_ftcs_step. split; [|done].
  apply update_temperature_exact; [done|]. by rewrite IHlen.
Qed.

Lemma time_loop_exact nx nt T alpha dx dt r :
  coefficient alpha dx dt = Ok r →
  Z.of_nat (length T) = nx →
  time_loop nx nt T alpha dx dt
  = Ok (Nat.iter (Z.to_nat nt) (ftcs_step r) T,
        (λ k, Nat.iter (S k) (ftcs_step r) T) <$> seq 0 (Z.to_nat nt)).
Proof.
  intros Hr Hlen. unfold time_loop. rewrite range_nonneg by done.
  rewrite Z.sub_0_r. change (Z.to_nat 0) with 0%nat.
  rewrite time_loop_iterates.
  assert (mapM (λ k, stepper_iter nx alpha dx dt (S k) T) (seq 0 (Z.to_nat nt))
          = Ok ((λ k, Nat.iter (S k) (ftcs_step r) T) <$> seq 0 (Z.to_nat nt)))
    as ->.
  { apply mapM_Ok_lookup. split; [by rewrite length_fmap|].
    intros k x y Hx. rewrite list_lookup_fmap, Hx. intros [= <-].
    apply (stepper_iter_exact nx T alpha dx dt r (S x) Hr Hlen). }
  simpl. by rewrite (proj1 (stepper_iter_exact nx T alpha dx dt r _ Hr Hlen)).
Qed.

(** The loop never runs for [nt <= 0]. *)
Lemma time_loop_empty nx nt T alpha dx dt :
  nt ≤ 0 → time_loop nx nt T alpha dx dt = Ok (T, []).
Proof. intros Hnt. unfold time_loop. by rewrite range_empty by lia. Qed.
End LoopFacts.

(** ** Initialisation and whole runs *)

Section RunFacts.
Context {F : Type} `{Float64 F}.
Implicit Types (T : list F) (r : F) (cfg : Config F).

Lemma T_init_Ok cfg : 1 ≤ nx cfg → T_init cfg = Ok (initial_state cfg).
Proof.
  intros Hnx. unfold T_init, np_ones, initial_state.
  destruct (decide _); [lia|]. simpl. rewrite fmap_replicate.
  rewrite (setitem_nat _ 0) by (rewrite length_replicate; lia). simpl.
  rewrite setitem_last by (rewrite length_insert, length_replicate; lia).
  by rewrite length_insert, length_replicate.
Qed.

Lemma T_init_zero cfg : nx cfg = 0 → T_init cfg = Raise (IndexError 0 0).
Proof. intros Hnx. unfold T_init, np_ones. by rewrite Hnx. Qed.

Lemma T_init_negative cfg : nx cfg < 0 → T_init cfg = Raise ValueError.
Proof. intros Hnx. unfold T_init, np_ones. by destruct (decide _); [|lia]. Qed.

Lemma length_initial_state cfg : length (initial_state cfg) = Z.to_nat (nx cfg).
Proof. unfold initial_state. by rewrite !length_insert, length_replicate. Qed.

Lemma initial_state_left cfg :
  2 ≤ nx cfg → initial_state cfg !! 0%nat = Some (T_left cfg).
Proof.
  intros Hnx. unfold initial_state.
  rewrite list_lookup_insert_ne by lia.
  apply list_lookup_insert_eq. rewrite length_replicate. lia.
Qed.

Lemma initial_state_right cfg :
  1 ≤ nx cfg → initial_state cfg !! Z.to_nat (nx cfg - 1) = Some (T_right cfg).
Proof.
  intros Hnx. unfold initial_state.
  replace (Z.to_nat (nx cfg - 1)) with (Z.to_nat (nx cfg) - 1)%nat by lia.
  apply list_lookup_insert_eq. rewrite length_insert, length_replicate. lia.
Qed.

Lemma initial_state_interior cfg (i : nat) x :
  (1 ≤ i)%nat → Z.of_nat i < nx cfg - 1 →
  initial_state cfg !! i = Some x → x = fmul fone (T_initial cfg).
Proof.
  intros Hlo Hhi. unfold initial_state. cbv zeta.
  rewrite list_lookup_insert_ne by lia.
  rewrite list_lookup_insert_ne by lia.
  by intros [-> _]%lookup_replicate.
Qed.

(** The update rule keeps the first and the last cell. *)
Lemma ftcs_step_first r T : ftcs_step r T !! 0%nat = T !! 0%nat.
Proof. rewrite lookup_ftcs_step. by destruct (T !! 0%nat). Qed.

Lemma ftcs_step_last r T :
  ftcs_step r T !! (length T - 1)%nat = T !! (length T - 1)%nat.
Proof.
  rewrite lookup_ftcs_step.
  destruct (T !! (length T - 1)%nat) as [x|] eqn:Hx; simpl; [|done].
  f_equal. destruct (length T - 1)%nat as [|j] eqn:Hj; simpl; [done|].
  rewrite (lookup_ge_None_2 T (S (S j))) by lia. by destruct (T !! j).
Qed.

Lemma iter_ftcs_step_length r T (n : nat) :
  length (Nat.iter n (ftcs_step r) T) = length T.
Proof. induction n as [|n IH]; [done|]. simpl. by rewrite length_ftcs_step. Qed.

Lemma iter_ftcs_step_first r T (n : nat) :
  Nat.iter n (ftcs_step r) T !! 0%nat = T !! 0%nat.
Proof. induction n as [|n IH]; [done|]. simpl. by rewrite ftcs_step_first. Qed.

Lemma iter_ftcs_step_last r T (n : nat) :
  Nat.iter n (ftcs_step r) T !! (length T - 1)%nat = T !! (length T - 1)%nat.
Proof.
  induction n as [|n IH]; [done|]. simpl.
  pose proof (ftcs_step_last r (Nat.iter n (ftcs_step r) T)) as Hlast.
  rewrite iter_ftcs_step_length in Hlast. by rewrite Hlast.
Qed.

(** A run whose derived quantities evaluate, in closed form. *)
Lemma simulate_exact cfg (dx : F) (nt : Z) r :
  1 ≤ nx cfg →
  dx_of cfg = Ok dx → nt_of cfg = Ok nt →
  coefficient (alpha cfg) dx (dt cfg) = Ok r →
  simulate cfg
  = Ok (Nat.iter (Z.to_nat nt) (ftcs_step r) (initial_state cfg),
        (λ k, Nat.iter (S k) (ftcs_step r) (initial_state cfg))
          <$> seq 0 (Z.to_nat nt)).
Proof.
  intros Hnx Hdx Hnt Hr. unfold simulate, setup.
  rewrite Hdx, Hnt, T_init_Ok by done. simpl.
  apply time_loop_exact; [done|]. rewrite length_initial_state. lia.
Qed.

Lemma T_history_exact cfg (dx : F) (nt : Z) r :
  1 ≤ nx cfg →
  dx_of cfg = Ok dx → nt_of cfg = Ok nt →
  coefficient (alpha cfg) dx (dt cfg) = Ok r →
  T_history cfg
  = Ok ((λ k, Nat.iter (S k) (ftcs_step r) (initial_state cfg))
          <$> seq 0 (Z.to_nat nt)).
Proof.
  intros. unfold T_history. by erewrite simulate_exact.
Qed.

Lemma T_history_lookup cfg (nt : Z) r (k : nat) Tk :
  ((λ k, Nat.iter (S k) (ftcs_step r) (initial_state cfg))
     <$> seq 0 (Z.to_nat nt)) !! k = Some Tk →
  (k < Z.to_nat nt)%nat ∧ Tk = Nat.iter (S k) (ftcs_step r) (initial_state cfg).
Proof.
  rewrite list_lookup_fmap.
  destruct (seq 0 (Z.to_nat nt) !! k) as [j|] eqn:Hj; simpl; [|done].
  apply lookup_seq in Hj as [-> Hk]. by intros [= <-].
Qed.
End RunFacts.

(** ** The specification: structure of a run

    The theorems of this part hold for every implementation of the float
    operations.  A configuration is taken as valid when it has at least three
    grid points and its derived quantities evaluate: [dx], [nt] and the
    coefficient [alpha * dt / dx**2] (no division by zero, no overflow). *)

(** C2 (boundary invariance): for every valid configuration the script ends
    with a history, and every recorded state holds [T_left] at index 0 and
    [T_right] at index [nx - 1]. *)
Theorem boundary_invariance {F : Type} `{Float64 F}
    (cfg : Config F) (dx : F) (nt : Z) (r : F) :
  3 ≤ nx cfg →
  dx_of cfg = Ok dx → nt_of cfg = Ok nt →
  coefficient (alpha cfg) dx (dt cfg) = Ok r →
  ∃ hist, T_history cfg = Ok hist ∧
    ∀ (k : nat) Tk, hist !! k = Some Tk →
      getitem Tk 0 = Ok (T_left cfg) ∧ getitem Tk (nx cfg - 1) = Ok (T_right cfg).
Proof.
  intros Hnx Hdx Hnt Hr. eexists. split.
  { apply (T_history_exact cfg dx nt r); done || lia. }
  intros k Tk [_ ->]%T_history_lookup. split.
  - apply (getitem_nat _ 0).
    rewrite iter_ftcs_step_first. apply initial_state_left. lia.
  - replace (nx cfg - 1) with (Z.of_nat (length (initial_state cfg) - 1))
      by (rewrite length_initial_state; lia).
    apply getitem_nat. rewrite iter_ftcs_step_last, length_initial_state.
    replace (Z.to_nat (nx cfg) - 1)%nat with (Z.to_nat (nx cfg - 1)) by lia.
    apply initial_state_right. lia.
Qed.

(** C3 (driving loop): the history the loop builds is the list of the
    results of applying the stepper [k + 1] times to the initial state, for
    [k = 0 .. nt - 1], the first exception of the stepper ending both; so a
    history [hist] is produced exactly when it has [nt] elements and each
    [hist[k]] is the [k + 1]-fold application, and [nt = 0] gives the empty
    history. *)
Theorem driving_loop_history {F : Type} `{Float64 F}
    (nx nt : Z) (T : list F) (alpha dx dt : F) :
  snd <$> time_loop nx nt T alpha dx dt
    = mapM (λ k, stepper_iter nx alpha dx dt (S k) T) (seq 0 (Z.to_nat nt))
  ∧ (∀ hist, snd <$> time_loop nx nt T alpha dx dt = Ok hist ↔
       length hist = Z.to_nat nt ∧
       ∀ (k : nat) Tk, hist !! k = Some Tk →
         stepper_iter nx alpha dx dt (S k) T = Ok Tk)
  ∧ snd <$> time_loop nx 0 T alpha dx dt = Ok [].
Proof.
  split; [apply time_loop_history|]. split; [|done].
  intros hist. rewrite time_loop_history, mapM_Ok_lookup, length_seq.
  split; intros [Hlen Hk]; (split; [done|]).
  - intros k Tk Hhist. apply (Hk k k Tk); [|done].
    apply lookup_seq. split; [done|]. rewrite <- Hlen. by eapply lookup_lt_Some.
  - intros k x Tk [-> _]%lookup_seq. apply Hk.
Qed.

(** C7 (length invariants): for every valid configuration with [nt >= 0]
    the history has exactly [nt] elements, each of them has exactly [nx]
    cells, and so has the final field. *)
Theorem length_invariants {F : Type} `{Float64 F}
    (cfg : Config F) (dx : F) (nt : Z) (r : F) :
  3 ≤ nx cfg →
  dx_of cfg = Ok dx → nt_of cfg = Ok nt → 0 ≤ nt →
  coefficient (alpha cfg) dx (dt cfg) = Ok r →
  ∃ T hist, simulate cfg = Ok (T, hist) ∧
    Z.of_nat (length T) = nx cfg ∧
    Z.of_nat (length hist) = nt ∧
    ∀ (k : nat) Tk, hist !! k = Some Tk → Z.of_nat (length Tk) = nx cfg.
Proof.
  intros Hnx Hdx Hnt Hpos Hr. eexists _, _. split.
  { apply (simulate_exact cfg dx nt r); done || lia. }
  split; [|split].
  - rewrite iter_ftcs_step_length, length_initial_state. lia.
  - rewrite length_fmap, length_seq. lia.
  - intros k Tk [_ ->]%T_history_lookup.
    rewrite iter_ftcs_step_length, length_initial_state. lia.
Qed.

(** ** Binary64: what the derived quantities can raise *)

Lemma b64_dx_of_raises (cfg : Config float) (e : exn) :
  dx_of cfg = Raise e → e = ZeroDivisionError ∨ e = OverflowError.
Proof.
  unfold dx_of. simpl. unfold Binary64.b64_of_int.
  destruct (PrimFloat.is_infinity _); simpl; [intros [= <-]; auto|].
  unfold Binary64.b64_truediv.
  destruct (PrimFloat.eqb _ _); [intros [= <-]; auto|done].
Qed.

Lemma b64_nt_of_raises (cfg : Config float) (e : exn) :
  nt_of cfg = Raise e →
  e = ZeroDivisionError ∨ e = OverflowError ∨ e = ValueError.
Proof.
  unfold nt_of. simpl. unfold Binary64.b64_truediv.
  destruct (PrimFloat.eqb _ _); simpl; [intros [= <-]; auto|].
  unfold Binary64.b64_to_int.
  destruct (Prim2SF _); try done; intros [= <-]; auto.
Qed.

(** The run of the script as shipped, in binary64: a thousand records, the
    interior cells of each between 25 and 100. *)
Lemma b64_shipped_run :
  ∃ hist, T_history Binary64.shipped = Ok hist ∧ length hist = 1000%nat
    ∧ forallb (Binary64.bounded Binary64.shipped) hist = true.
Proof.
  assert (match T_history Binary64.shipped with
          | Ok hist => (length hist =? 1000)%nat
                       && forallb (Binary64.bounded Binary64.shipped) hist
          | Raise _ => false
          end = true) as Hrun by (vm_compute; reflexivity).
  destruct (T_history Binary64.shipped) as [hist|e]; [|done].
  apply andb_prop in Hrun as [Hlen%Nat.eqb_eq Hall]. by exists hist.
Qed.

(** C6, as the code has it: steps 2 and 3 of the script check nothing and
    know no [InvalidConfiguration].  For every arithmetic they raise what the
    computation of [dx = length / (nx - 1)] raises, else what that of
    [nt = int(total_time / dt)] raises, else [ValueError] for a negative
    [nx] and [IndexError] for [nx = 0]; [alpha] is not read.  So whenever
    [dx] and [nt] evaluate and [nx >= 1], a field of [nx] cells is built,
    whatever the number of grid points and the signs of [dx], [dt] and
    [alpha].  In binary64 the exceptions that can come out, memory permitting, are
    [ZeroDivisionError], [OverflowError], [ValueError] and the [IndexError]
    of [T[0]] on an empty array. *)
Theorem setup_errors :
  (∀ (F : Type) (HF : Float64 F) (cfg : Config F),
     setup cfg
     = (dx ← dx_of cfg;
        nt ← nt_of cfg;
        if decide (nx cfg < 0) then Raise ValueError
        else if decide (nx cfg = 0) then Raise (IndexError 0 0)
        else Ok (dx, nt, initial_state cfg)))
  ∧ (∀ (F : Type) (HF : Float64 F) (cfg : Config F) (dx : F) (nt : Z),
       1 ≤ nx cfg → dx_of cfg = Ok dx → nt_of cfg = Ok nt →
       setup cfg = Ok (dx, nt, initial_state cfg)
       ∧ Z.of_nat (length (initial_state cfg)) = nx cfg)
  ∧ (∀ (cfg : Config float) (e : exn),
       setup cfg = Raise e →
       e = ZeroDivisionError ∨ e = OverflowError ∨ e = ValueError
       ∨ e = IndexError 0 0).
Proof.
  assert (∀ (F : Type) (HF : Float64 F) (cfg : Config F),
            setup cfg
            = (dx ← dx_of cfg;
               nt ← nt_of cfg;
               if decide (nx cfg < 0) then Raise ValueError
               else if decide (nx cfg = 0) then Raise (IndexError 0 0)
               else Ok (dx, nt, initial_state cfg))) as Hsetup.
  { intros F HF cfg. unfold setup.
    destruct (dx_of cfg) as [dx|e]; simpl; [|done].
    destruct (nt_of cfg) as [nt|e]; simpl; [|done].
    destruct (decide (nx cfg < 0)); [by rewrite T_init_negative|].
    destruct (decide (nx cfg = 0)); [by rewrite T_init_zero|].
    by rewrite T_init_Ok by lia. }
  split; [exact Hsetup|]. split.
  - intros F HF cfg dx nt Hnx Hdx Hnt. rewrite Hsetup, Hdx, Hnt. simpl.
    destruct (decide (nx cfg < 0)); [lia|].
    destruct (decide (nx cfg = 0)); [lia|].
    split; [done|]. rewrite length_initial_state. lia.
  - intros cfg e. rewrite Hsetup.
    destruct (dx_of cfg) as [dx|e1] eqn:Hdx; simpl.
    2:{ intros [= <-]. destruct (b64_dx_of_raises _ _ Hdx) as [->| ->]; auto. }
    destruct (nt_of cfg) as [nt|e2] eqn:Hnt; simpl.
    2:{ intros [= <-].
        destruct (b64_nt_of_raises _ _ Hnt) as [->|[->| ->]]; auto. }
    destruct (decide (nx cfg < 0)); [intros [= <-]; auto|].
    destruct (decide (nx cfg = 0)); [intros [= <-]; auto|done].
Qed.

(** ** Exact arithmetic: the numerical properties *)

Module ExactFacts.
Import Exact.
Open Scope Qc_scope.
Implicit Types (T : list Qc) (cfg : Config Qc).

Lemma Qc_truediv_Ok (x y : Qc) : y ≠ 0 → Qc_truediv x y = Ok (x / y).
Proof.
  intros Hy. unfold Qc_truediv.
  destruct (Qeq_bool y 0) eqn:Hb; [|done].
  destruct Hy. by apply Qc_is_canon, Qeq_bool_eq.
Qed.

Lemma Qc_truediv_zero (x : Qc) : Qc_truediv x 0 = Raise ZeroDivisionError.
Proof. done. Qed.

Lemma Qc_square_nonzero (x : Qc) : x ≠ 0 → x * x ≠ 0.
Proof. intros Hx Hxx. by destruct (Qcmult_integral _ _ Hxx). Qed.

Lemma coefficient_Ok (alpha dx dt : Qc) :
  dx ≠ 0 → coefficient alpha dx dt = Ok (alpha * dt / (dx * dx)).
Proof.
  intros Hdx. unfold coefficient. simpl.
  by apply Qc_truediv_Ok, Qc_square_nonzero.
Qed.

Lemma coefficient_zero (alpha dt : Qc) :
  coefficient alpha 0 dt = Raise ZeroDivisionError.
Proof. done. Qed.

Lemma dx_of_Ok cfg :
  nx cfg ≠ 1%Z → dx_of cfg = Ok (rod_length cfg / Qc_of_Z (nx cfg - 1)).
Proof.
  intros Hnx. unfold dx_of. simpl. apply Qc_truediv_Ok.
  rewrite <- Z2Qc_inj_0. intros Heq%Z2Qc_inj. lia.
Qed.

Lemma nt_of_Ok cfg :
  dt cfg ≠ 0 → nt_of cfg = Ok (Qc_trunc (total_time cfg / dt cfg)).
Proof. intros Hdt. unfold nt_of. by rewrite (Qc_truediv_Ok _ _ Hdt). Qed.

Lemma Qc_pos_nonzero (x : Qc) : 0 < x → x ≠ 0.
Proof. intros Hx ->. by apply (Qclt_not_eq 0 0). Qed.

Lemma half_twice : 2 * dec 1 2 = 1.
Proof. by apply Qc_is_canon. Qed.

Lemma Qc_min_le_l (x y : Qc) : Qc_min x y ≤ x.
Proof.
  unfold Qc_min. destruct (decide _) as [|Hn]; [apply Qcle_refl|].
  by apply Qclt_le_weak, Qcnot_le_lt.
Qed.

Lemma Qc_min_le_r (x y : Qc) : Qc_min x y ≤ y.
Proof. unfold Qc_min. destruct (decide _); [done | apply Qcle_refl]. Qed.

Lemma Qc_max_ge_l (x y : Qc) : x ≤ Qc_max x y.
Proof. unfold Qc_max. destruct (decide _); [done | apply Qcle_refl]. Qed.

Lemma Qc_max_ge_r (x y : Qc) : y ≤ Qc_max x y.
Proof.
  unfold Qc_max. destruct (decide _) as [|Hn]; [apply Qcle_refl|].
  by apply Qclt_le_weak, Qcnot_le_lt.
Qed.

Lemma Qc_sub_nonneg (x y : Qc) : x ≤ y → 0 ≤ y - x.
Proof. intros Hxy. by apply Qcle_minus_iff in Hxy. Qed.

(** The new value is a convex combination of the three old ones as soon as
    [0 <= r <= 1/2]. *)
Lemma ftcs_bounds (r lo hi x_prev x x_next : Qc) :
  0 ≤ r → r ≤ dec 1 2 →
  lo ≤ x_prev ≤ hi → lo ≤ x ≤ hi → lo ≤ x_next ≤ hi →
  lo ≤ ftcs r x_prev x x_next ≤ hi.
Proof.
  intros Hr0 Hr1 [Hp1 Hp2] [Hx1 Hx2] [Hn1 Hn2]. unfold ftcs. simpl.
  assert (0 ≤ 1 - 2 * r) as Hc.
  { apply Qc_sub_nonneg. rewrite <- half_twice.
    by apply Qcmult_le_mono_nonneg_l. }
  split; apply Qcle_minus_iff.
  - replace (x + r * (x_next - 2 * x + x_prev) + - lo)
      with ((1 - 2 * r) * (x - lo) + r * (x_next - lo) + r * (x_prev - lo))
      by ring.
    repeat apply Qcplus_nonneg_nonneg;
      apply Qcmult_nonneg_nonneg; auto using Qc_sub_nonneg.
  - replace (hi + - (x + r * (x_next - 2 * x + x_prev)))
      with ((1 - 2 * r) * (hi - x) + r * (hi - x_next) + r * (hi - x_prev))
      by ring.
    repeat apply Qcplus_nonneg_nonneg;
      apply Qcmult_nonneg_nonneg; auto using Qc_sub_nonneg.
Qed.

Lemma ftcs_step_bounds (r lo hi : Qc) T :
  0 ≤ r → r ≤ dec 1 2 →
  Forall (λ x, lo ≤ x ≤ hi) T → Forall (λ x, lo ≤ x ≤ hi) (ftcs_step r T).
Proof.
  intros Hr0 Hr1 HT. rewrite Forall_lookup in HT. apply Forall_lookup.
  intros i y. rewrite lookup_ftcs_step.
  destruct (T !! i) as [x|] eqn:Hx; simpl; [|done]. intros [= <-].
  destruct i as [|j]; simpl; [by eapply HT|].
  destruct (T !! j) as [x_prev|] eqn:Hp; [|by eapply HT].
  destruct (T !! S (S j)) as [x_next|] eqn:Hn; [|by eapply HT].
  apply ftcs_bounds; eauto.
Qed.

Lemma iter_ftcs_step_bounds (r lo hi : Qc) T (n : nat) :
  0 ≤ r → r ≤ dec 1 2 →
  Forall (λ x, lo ≤ x ≤ hi) T →
  Forall (λ x, lo ≤ x ≤ hi) (Nat.iter n (ftcs_step r) T).
Proof.
  intros Hr0 Hr1 HT. induction n as [|n IH]; [done|]. simpl.
  by apply ftcs_step_bounds.
Qed.

Lemma initial_state_bounds cfg :
  Forall (λ x, T_min cfg ≤ x ≤ T_max cfg) (initial_state cfg).
Proof.
  unfold initial_state, T_min, T_max. cbv zeta.
  apply Forall_insert; [apply Forall_insert; [apply Forall_replicate|]|].
  - simpl. rewrite Qcmult_1_l. split.
    + eapply Qcle_trans; [apply Qc_min_le_r|apply Qc_min_le_r].
    + eapply Qcle_trans; [|apply Qc_max_ge_r]. apply Qc_max_ge_r.
  - split; [apply Qc_min_le_l | apply Qc_max_ge_l].
  - split.
    + eapply Qcle_trans; [apply Qc_min_le_r|apply Qc_min_le_l].
    + eapply Qcle_trans; [|apply Qc_max_ge_r]. apply Qc_max_ge_l.
Qed.

Lemma coefficient_nonneg (alpha dx dt : Qc) :
  0 < alpha → 0 < dt → 0 < dx → 0 ≤ alpha * dt / (dx * dx).
Proof.
  intros Ha Ht Hx. apply Qclt_le_weak. unfold Qcdiv.
  apply Qcmult_pos_pos; [by apply Qcmult_pos_pos|].
  by apply Qcinv_pos, Qcmult_pos_pos.
Qed.

(** In exact arithmetic the derived quantities of a configuration with at
    least two grid points, a positive rod length and a positive time step
    all evaluate, and [dx] is positive. *)
Lemma valid_configuration_evaluates cfg :
  (2 ≤ nx cfg)%Z → 0 < rod_length cfg → 0 < dt cfg →
  ∃ dx nt r, dx_of cfg = Ok dx ∧ 0 < dx ∧ nt_of cfg = Ok nt
    ∧ coefficient (alpha cfg) dx (dt cfg) = Ok r.
Proof.
  intros Hnx Hlen Hdt.
  assert (0 < rod_length cfg / Qc_of_Z (nx cfg - 1)) as Hdx.
  { unfold Qcdiv. apply Qcmult_pos_pos; [done|]. apply Qcinv_pos.
    rewrite <- Z2Qc_inj_0. apply (proj1 (Z2Qc_inj_lt 0 (nx cfg - 1))). lia. }
  eexists _, _, _. split; [apply dx_of_Ok; lia|]. split; [done|].
  split; [by apply nt_of_Ok, Qc_pos_nonzero|].
  by apply coefficient_Ok, Qc_pos_nonzero.
Qed.
End ExactFacts.

Section NumericalClaims.
Import Exact ExactFacts.
Local Open Scope Qc_scope.
Implicit Types (T : list Qc) (cfg : Config Qc).

(** The maximum principle of the update rule, where nothing is rounded. *)
Lemma stable_run_bounded cfg (dx : Qc) :
  (3 ≤ nx cfg)%Z →
  dx_of cfg = Ok dx →
  0 < alpha cfg → 0 < dt cfg → 0 < dx →
  alpha cfg * dt cfg / (dx * dx) ≤ dec 1 2 →
  ∃ hist, T_history cfg = Ok hist ∧
    ∀ (k : nat) Tk (i : Z) x, hist !! k = Some Tk →
      (1 ≤ i ≤ nx cfg - 2)%Z → getitem Tk i = Ok x →
      T_min cfg ≤ x ≤ T_max cfg.
Proof.
  intros Hnx Hdx Ha Ht Hx Hstable.
  pose proof (Qc_pos_nonzero _ Ht) as Hdt.
  pose proof (Qc_pos_nonzero _ Hx) as Hdx0.
  eexists. split.
  { apply (T_history_exact cfg dx _ _ ltac:(lia) Hdx (nt_of_Ok cfg Hdt)
             (coefficient_Ok _ _ _ Hdx0)). }
  intros k Tk i x [_ ->]%T_history_lookup Hi Hget.
  apply getitem_Ok in Hget; [|lia].
  pose proof (iter_ftcs_step_bounds _ (T_min cfg) (T_max cfg) (initial_state cfg)
                (S k) (coefficient_nonneg _ _ _ Ha Ht Hx) Hstable
                (initial_state_bounds cfg)) as Hall.
  rewrite Forall_lookup in Hall. by eapply Hall.
Qed.

(** C4 (maximum principle).  In exact arithmetic, for every configuration
    with [nx >= 3], [alpha, dt, dx > 0] and [alpha * dt / dx**2 <= 1/2], the
    script ends with a history, and every value at an interior index
    [1 .. nx - 2] of every recorded state lies between
    [min(T_left, T_right, T_initial)] and [max(T_left, T_right, T_initial)].
    In binary64 the run of the configuration the script ships has its
    thousand records within these bounds too; for other configurations
    rounding can take a value out of them. *)
Theorem maximum_principle :
  (∀ cfg (dx : Qc),
     (3 ≤ nx cfg)%Z →
     dx_of cfg = Ok dx →
     0 < alpha cfg → 0 < dt cfg → 0 < dx →
     alpha cfg * dt cfg / (dx * dx) ≤ dec 1 2 →
     ∃ hist, T_history cfg = Ok hist ∧
       ∀ (k : nat) Tk (i : Z) x, hist !! k = Some Tk →
         (1 ≤ i ≤ nx cfg - 2)%Z → getitem Tk i = Ok x →
         T_min cfg ≤ x ≤ T_max cfg)
  ∧ (∃ hist, T_history Binary64.shipped = Ok hist ∧ length hist = 1000%nat
       ∧ forallb (Binary64.bounded Binary64.shipped) hist = true).
Proof.
  split; [exact stable_run_bounded|exact b64_shipped_run].
Qed.


(** C9 (the loop bound is the global [nx = 20], not the length of the
    argument).  For every arithmetic: an array of 3 to 19 cells makes the
    stepper fail, with the [IndexError] of the read at index [len(T)] as soon
    as the coefficient evaluates; an array of more than 20 cells comes back
    with the indices 1 to 18 updated and the indices 19 to [len(T) - 2]
    unchanged.  In exact arithmetic: the stepper computes the documented
    update on all arrays of a length [L >= 3] only for [L = 20]. *)
Theorem stepper_reads_global_nx :
  (∀ (F : Type) (HF : Float64 F) (T : list F) (alpha dx dt : F),
     (3 ≤ length T < 20)%nat →
     update_temperature 20 T alpha dx dt
     = match coefficient alpha dx dt with
       | Ok _ => Raise (IndexError (Z.of_nat (length T)) (length T))
       | Raise e => Raise e
       end)
  ∧ (∀ (F : Type) (HF : Float64 F) (T : list F) (alpha dx dt r : F),
     (20 < length T)%nat → coefficient alpha dx dt = Ok r →
     ∃ T_new, update_temperature 20 T alpha dx dt = Ok T_new ∧
       length T_new = length T ∧
       (∀ i : nat, (1 ≤ i ≤ 18)%nat → T_new !! i = ftcs_point r T i <$> T !! i) ∧
       (∀ i : nat, (19 ≤ i ≤ length T - 2)%nat → T_new !! i = T !! i))
  ∧ (∀ L : nat, (3 ≤ L)%nat →
     (∀ T alpha dx dt, length T = L → dx ≠ 0 →
        update_temperature 20 T alpha dx dt
        = Ok (ftcs_step (alpha * dt / (dx * dx)) T))
     ↔ L = 20%nat).
Proof.
  split; [|split].
  - intros F HF T alpha dx dt HL. apply update_temperature_overrun; lia.
  - intros F HF T alpha dx dt r HL Hr. eexists. split.
    { apply (update_temperature_prefix 20 T alpha dx dt r Hr). lia. }
    change (Z.to_nat (20 - 1)) with 19%nat.
    split; [apply length_ftcs_upto|]. split; intros i Hi.
    + rewrite lookup_ftcs_upto. destruct (T !! i); simpl; [|done].
      by destruct (decide _); [|lia].
    + rewrite lookup_ftcs_upto. destruct (T !! i); simpl; [|done].
      by destruct (decide _); [lia|].
  - intros L HL. split.
    + intros Hdoc. destruct (decide (L = 20%nat)) as [|Hne]; [done|]. exfalso.
      assert ((1 : Qc) ≠ 0) as H10 by done.
      destruct (decide (L < 20)%nat) as [Hlt|Hge].
      * specialize (Hdoc (replicate L 0) 1 1 1 (length_replicate _ _) H10).
        rewrite update_temperature_overrun in Hdoc
          by (rewrite length_replicate; lia).
        by rewrite (coefficient_Ok _ _ _ H10) in Hdoc.
      * pose (T := <[20%nat := 1]> (replicate L (0 : Qc))).
        assert (length T = L) as HT
          by (unfold T; by rewrite length_insert, length_replicate).
        specialize (Hdoc T 1 1 1 HT H10).
        rewrite (update_temperature_prefix 20 T 1 1 1 _ (coefficient_Ok _ _ _ H10))
          in Hdoc by lia.
        injection Hdoc as Hdoc.
        apply (f_equal (λ l, l !! 19%nat)) in Hdoc.
        rewrite lookup_ftcs_upto, lookup_ftcs_step in Hdoc.
        assert (T !! 19%nat = Some 0) as H19.
        { unfold T. rewrite list_lookup_insert_ne by lia.
          apply lookup_replicate_2. lia. }
        assert (T !! 18%nat = Some 0) as H18.
        { unfold T. rewrite list_lookup_insert_ne by lia.
          apply lookup_replicate_2. lia. }
        assert (T !! 20%nat = Some 1) as H20.
        { unfold T. apply list_lookup_insert_eq. rewrite length_replicate. lia. }
        rewrite H19 in Hdoc. simpl in Hdoc. rewrite H18, H20 in Hdoc.
        injection Hdoc as Hdoc. revert Hdoc. by vm_compute.
    + intros -> T alpha dx dt HT Hdx.
      apply update_temperature_exact; [by apply coefficient_Ok|].
      rewrite HT. done.
Qed.

(** C1 (stepper contract), evaluated where it fails: with the script's
    [nx = 20], [dx = 1/19], [alpha] and [dt], a field of four cells is not
    stepped; the loop runs on to index 4 and raises. *)
Theorem stepper_off_grid_raises :
  update_temperature (nx shipped)
    [dec 100 1; dec 25 1; dec 25 1; dec 50 1]
    (alpha shipped) (dec 1 19) (dt shipped)
  = Raise (IndexError 4 4).
Proof. by vm_compute. Qed.

(** C5 (single-step example), evaluated on the code: with the script's
    [nx = 20] the call on [[100, 25, 50]] raises at index 3; the values of
    the example, [[100, 25.0004, 50]], are those of a script whose [nx]
    is 3. *)
Theorem single_step_example :
  update_temperature 20 [dec 100 1; dec 25 1; dec 50 1]
    (dec 1 10000) (dec 1 2) (dec 1 100)
  = Raise (IndexError 3 3)
  ∧ update_temperature 3 [dec 100 1; dec 25 1; dec 50 1]
      (dec 1 10000) (dec 1 2) (dec 1 100)
    = Ok [dec 100 1; dec 250004 10000; dec 50 1].
Proof.
  split; [by vm_compute|].
  assert ((dec 1 2 : Qc) ≠ 0) as Hdx by done.
  rewrite (update_temperature_exact 3 [dec 100 1; dec 25 1; dec 50 1]
             _ _ _ _ (coefficient_Ok _ _ _ Hdx) eq_refl).
  unfold ftcs_step. simpl. do 3 f_equal. by apply Qc_is_canon.
Qed.

(** ** The theorems at concrete inputs *)

Lemma boundary_invariance_witness :
  ∃ hist, T_history shipped = Ok hist ∧
    ∀ (k : nat) Tk, hist !! k = Some Tk →
      getitem Tk 0 = Ok (T_left shipped)
      ∧ getitem Tk (nx shipped - 1) = Ok (T_right shipped).
Proof.
  apply (boundary_invariance shipped shipped_dx 1000 shipped_r).
  - simpl. lia.
  - vm_compute. reflexivity.
  - vm_compute. reflexivity.
  - vm_compute. reflexivity.
Defined.

Lemma driving_loop_history_witness :
  snd <$> time_loop 3 2 [dec 100 1; dec 25 1; dec 50 1]
            (dec 1 10000) (dec 1 2) (dec 1 100)
  = mapM (λ k, stepper_iter 3 (dec 1 10000) (dec 1 2) (dec 1 100) (S k)
                 [dec 100 1; dec 25 1; dec 50 1]) (seq 0 (Z.to_nat 2)).
Proof.
  exact (proj1 (driving_loop_history 3 2 [dec 100 1; dec 25 1; dec 50 1]
                  (dec 1 10000) (dec 1 2) (dec 1 100))).
Defined.

Lemma length_invariants_witness :
  ∃ T hist, simulate shipped = Ok (T, hist) ∧
    Z.of_nat (length T) = nx shipped ∧
    Z.of_nat (length hist) = 1000%Z ∧
    ∀ (k : nat) Tk, hist !! k = Some Tk → Z.of_nat (length Tk) = nx shipped.
Proof.
  apply (length_invariants shipped shipped_dx 1000 shipped_r).
  - simpl. lia.
  - vm_compute. reflexivity.
  - vm_compute. reflexivity.
  - lia.
  - vm_compute. reflexivity.
Defined.

Lemma maximum_principle_witness :
  ∃ hist, T_history shipped = Ok hist ∧
    ∀ (k : nat) Tk (i : Z) x, hist !! k = Some Tk →
      (1 ≤ i ≤ nx shipped - 2)%Z → getitem Tk i = Ok x →
      T_min shipped ≤ x ≤ T_max shipped.
Proof.
  apply (proj1 maximum_principle shipped shipped_dx).
  - simpl. lia.
  - vm_compute. reflexivity.
  - vm_compute. reflexivity.
  - vm_compute. reflexivity.
  - vm_compute. reflexivity.
  - vm_compute. discriminate.
Defined.


Lemma stepper_reads_global_nx_witness :
  update_temperature 20 [dec 100 1; dec 25 1; dec 50 1]
    (dec 1 10000) (dec 1 2) (dec 1 100)
  = match coefficient (dec 1 10000) (dec 1 2) (dec 1 100) with
    | Ok _ => Raise (IndexError 3 3)
    | Raise e => Raise e
    end.
Proof.
  apply (proj1 stepper_reads_global_nx Qc _ [dec 100 1; dec 25 1; dec 50 1]).
  simpl. lia.
Defined.
End NumericalClaims.

(** ** Binary64: where the script departs from the specification *)

Section Binary64Claims.
Import Binary64.
#[local] Set Warnings "-inexact-float".
Local Open Scope float_scope.

(** C6 fails as stated: the configuration [degenerate] has fewer than three
    grid points, a negative [dx], a negative [dt] and a negative [alpha], and
    the script builds its field and runs to the end without an error. *)
Lemma invalid_configuration_accepted :
  (nx degenerate < 3)%Z
  ∧ (alpha degenerate <=? 0) = true ∧ (dt degenerate <=? 0) = true
  ∧ dx_of degenerate = Ok (-1.0) ∧ (-1.0 <=? 0) = true
  ∧ setup degenerate = Ok (-1.0, (-1000)%Z, [100.0; 50.0])
  ∧ simulate degenerate = Ok ([100.0; 50.0], []).
Proof.
  repeat split; vm_compute; reflexivity.
Qed.

(** C4 fails in binary64: with three grid points, [dx = 0.5] and
    [alpha * dt / dx**2 = 0.5] exactly, both ends at 1.1 and the interior
    cell at 50, the one recorded state has 1.0999999999999943 in its
    interior cell, below the minimum 1.1 of the three temperatures. *)
Lemma maximum_principle_fails_in_binary64 :
  (3 ≤ nx hot_middle)%Z
  ∧ dx_of hot_middle = Ok 0.5
  ∧ (0 <? alpha hot_middle) = true ∧ (0 <? dt hot_middle) = true
  ∧ (0 <? 0.5) = true
  ∧ coefficient (alpha hot_middle) 0.5 (dt hot_middle) = Ok 0.5
  ∧ (0.5 <=? 0.5) = true
  ∧ T_history hot_middle = Ok [[1.1; 1.0999999999999943; 1.1]]
  ∧ getitem [1.1; 1.0999999999999943; 1.1] 1 = Ok 1.0999999999999943
  ∧ T_min hot_middle = 1.1
  ∧ (1.0999999999999943 <? T_min hot_middle) = true
  ∧ bounded hot_middle [1.1; 1.0999999999999943; 1.1] = false.
Proof.
  repeat split; try (vm_compute; reflexivity). simpl. lia.
Qed.


Lemma setup_errors_witness :
  setup shipped = Ok (1 / 19, 1000%Z, initial_state shipped)
  ∧ Z.of_nat (length (initial_state shipped)) = nx shipped.
Proof.
  apply (proj1 (proj2 setup_errors) float b64_float shipped (1 / 19) 1000%Z).
  - simpl. lia.
  - vm_compute. reflexivity.
  - vm_compute. reflexivity.
Defined.
End Binary64Claims.

(** ** Further properties of the stepper, for every arithmetic *)

Section StepperCases.
Context {F : Type} `{Float64 F}.
Implicit Types (T U : list F) (r alpha dx dt : F).

(** With three grid points or more, an array of at most one cell fails at
    the first read, [T[1]], before the coefficient is computed. *)
Lemma update_temperature_tiny nx T alpha dx dt :
  3 ≤ nx → (length T ≤ 1)%nat →
  update_temperature nx T alpha dx dt = Raise (IndexError 1 (length T)).
Proof.
  intros Hnx Hlen. unfold update_temperature. rewrite range_nonneg by lia.
  change (Z.to_nat 1) with 1%nat.
  replace (Z.to_nat (nx - 1 - 1)) with (S (Z.to_nat (nx - 3))) by lia.
  simpl. unfold update_point.
  by rewrite (getitem_beyond T (Z.of_nat 1)) by lia.
Qed.

(** With three grid points or more and two cells or more, an exception of
    the coefficient is the exception of the call. *)
Lemma update_temperature_coefficient_raises nx T alpha dx dt e :
  3 ≤ nx → (2 ≤ length T)%nat → coefficient alpha dx dt = Raise e →
  update_temperature nx T alpha dx dt = Raise e.
Proof.
  intros Hnx Hlen Hr. unfold update_temperature. rewrite range_nonneg by lia.
  change (Z.to_nat 1) with 1%nat.
  replace (Z.to_nat (nx - 1 - 1)) with (S (Z.to_nat (nx - 3))) by lia.
  destruct (lookup_lt_is_Some_2 T 1) as [y Hy]; [lia|].
  simpl. unfold update_point.
  rewrite (getitem_nat T 1 y Hy). simpl. by rewrite Hr.
Qed.

Lemma ftcs_upto_first r b T : ftcs_upto r b T !! 0%nat = T !! 0%nat.
Proof.
  rewrite lookup_ftcs_upto. destruct (T !! 0%nat); simpl; [|done].
  by destruct (decide _).
Qed.

Lemma ftcs_upto_last r b T :
  ftcs_upto r b T !! (length T - 1)%nat = T !! (length T - 1)%nat.
Proof.
  rewrite lookup_ftcs_upto.
  destruct (T !! (length T - 1)%nat) as [x|] eqn:Hx; simpl; [|done].
  destruct (decide _); [|done]. f_equal.
  destruct (length T - 1)%nat as [|j] eqn:Hj; simpl; [done|].
  rewrite (lookup_ge_None_2 T (S (S j))) by lia. by destruct (T !! j).
Qed.

Lemma ftcs_upto_beyond r b T (i : nat) :
  (b ≤ i)%nat → ftcs_upto r b T !! i = T !! i.
Proof.
  intros Hi. rewrite lookup_ftcs_upto. destruct (T !! i); simpl; [|done].
  by destruct (decide _); [lia|].
Qed.

(** What a returning call returned. *)
Lemma update_temperature_Ok_inv nx T alpha dx dt T' :
  update_temperature nx T alpha dx dt = Ok T' →
  T' = T ∨ ∃ r, T' = ftcs_upto r (Z.to_nat (nx - 1)) T.
Proof.
  intros Hok. destruct (decide (nx ≤ 2)) as [Hs|Hl].
  { rewrite update_temperature_short in Hok by done. left. congruence. }
  destruct (decide (length T ≤ 1)%nat) as [Ht|Ht].
  { by rewrite update_temperature_tiny in Hok by lia. }
  destruct (coefficient alpha dx dt) as [r|e] eqn:Hr.
  - destruct (decide (Z.of_nat (length T) < nx)) as [Hlt|Hge].
    + rewrite update_temperature_overrun, Hr in Hok by lia. done.
    + rewrite (update_temperature_prefix _ _ _ _ _ r) in Hok by (done || lia).
      right. exists r. congruence.
  - by rewrite (update_temperature_coefficient_raises _ _ _ _ _ e) in Hok
      by (done || lia).
Qed.

(** The update rule at index [i] reads the cells [i - 1], [i], [i + 1]. *)
Lemma ftcs_step_local r T U (i : nat) :
  length T = length U →
  T !! i = U !! i → T !! (i - 1)%nat = U !! (i - 1)%nat → T !! S i = U !! S i →
  ftcs_step r T !! i = ftcs_step r U !! i.
Proof.
  intros Hlen Hi Hp Hn. rewrite !lookup_ftcs_step, <- Hi.
  destruct (T !! i) as [x|]; simpl; [|done]. f_equal.
  destruct i as [|j]; simpl; [done|].
  replace (S j - 1)%nat with j in Hp by lia. by rewrite Hp, Hn.
Qed.

Lemma iter_ftcs_step_local r (k : nat) T U (i : nat) :
  length T = length U →
  (∀ j : nat, (i ≤ j + k)%nat → (j ≤ i + k)%nat → T !! j = U !! j) →
  Nat.iter k (ftcs_step r) T !! i = Nat.iter k (ftcs_step r) U !! i.
Proof.
  intros Hlen. revert i. induction k as [|k IH]; intros i Hwin.
  { simpl. apply Hwin; lia. }
  simpl. apply ftcs_step_local.
  - by rewrite !iter_ftcs_step_length.
  - apply IH. intros j ??. apply Hwin; lia.
  - apply IH. intros j ??. apply Hwin; lia.
  - apply IH. intros j ??. apply Hwin; lia.
Qed.
End StepperCases.

(** X1 (outcome of a call).  [update_temperature] with the global [nx] on an
    array [T]: for [nx <= 2] it returns the copy; else an array of at most
    one cell fails at the read of [T[1]]; else an exception of
    [alpha * dt / dx**2] is raised; else an array shorter than [nx] fails at
    the read of [T[len(T)]]; else the indices [1 .. nx - 2] are updated from
    the old values and the other cells are copied. *)
Theorem update_temperature_cases {F : Type} `{Float64 F}
    (nx : Z) (T : list F) (alpha dx dt : F) :
  update_temperature nx T alpha dx dt =
    if decide (nx ≤ 2) then Ok T
    else if decide (length T ≤ 1)%nat then Raise (IndexError 1 (length T))
    else match coefficient alpha dx dt with
         | Raise e => Raise e
         | Ok r =>
             if decide (Z.of_nat (length T) < nx)
             then Raise (IndexError (Z.of_nat (length T)) (length T))
             else Ok (ftcs_upto r (Z.to_nat (nx - 1)) T)
         end.
Proof.
  destruct (decide (nx ≤ 2)); [by apply update_temperature_short|].
  destruct (decide (length T ≤ 1)%nat); [apply update_temperature_tiny; lia|].
  destruct (coefficient alpha dx dt) as [r|e] eqn:Hr.
  - destruct (decide _).
    + rewrite update_temperature_overrun, Hr by lia. done.
    + apply update_temperature_prefix; done || lia.
  - apply update_temperature_coefficient_raises; done || lia.
Qed.

(** X2 (the frame of a step).  Whatever the global [nx] and the length of
    the array, a call that returns gives an array of the same length whose
    first cell, last cell and cells from index [nx - 1] on are those of the
    argument. *)
Theorem stepper_preserves_frame {F : Type} `{Float64 F}
    (nx : Z) (T T' : list F) (alpha dx dt : F) :
  update_temperature nx T alpha dx dt = Ok T' →
  length T' = length T
  ∧ T' !! 0%nat = T !! 0%nat
  ∧ T' !! (length T - 1)%nat = T !! (length T - 1)%nat
  ∧ ∀ i : nat, nx - 1 ≤ Z.of_nat i → T' !! i = T !! i.
Proof.
  intros [->|[r ->]]%update_temperature_Ok_inv; [done|].
  split; [apply length_ftcs_upto|]. split; [apply ftcs_upto_first|].
  split; [apply ftcs_upto_last|].
  intros i Hi. apply ftcs_upto_beyond. lia.
Qed.

(** X3 (numerical domain of dependence).  After [k] steps the value at
    index [i] depends only on the initial cells [i - k .. i + k]: two
    fields of [nx] cells that agree there give [k]-fold iterates that agree
    at [i]. *)
Theorem domain_of_dependence {F : Type} `{Float64 F}
    (nx : Z) (alpha dx dt r : F) (k i : nat) (T U Tk Uk : list F) :
  coefficient alpha dx dt = Ok r →
  Z.of_nat (length T) = nx → Z.of_nat (length U) = nx →
  (∀ j : nat, (i ≤ j + k)%nat → (j ≤ i + k)%nat → T !! j = U !! j) →
  stepper_iter nx alpha dx dt k T = Ok Tk →
  stepper_iter nx alpha dx dt k U = Ok Uk →
  Tk !! i = Uk !! i.
Proof.
  intros Hr HT HU Hwin.
  rewrite (proj1 (stepper_iter_exact nx T alpha dx dt r k Hr HT)).
  rewrite (proj1 (stepper_iter_exact nx U alpha dx dt r k Hr HU)).
  intros [= <-] [= <-]. apply iter_ftcs_step_local; [lia|done].
Qed.

(** ** Further properties of the driving loop and of the initial field *)

Section LoopCases.
Context {F : Type} `{Float64 F}.
Implicit Types (T : list F) (hist : list (list F)) (alpha dx dt : F).

(** The loop body does not read the loop variable. *)
Lemma for_each_time_step_length nx alpha dx dt (l1 l2 : list Z) st :
  length l1 = length l2 →
  for_each l1 (time_step nx alpha dx dt) st
  = for_each l2 (time_step nx alpha dx dt) st.
Proof.
  revert l2 st. induction l1 as [|a l1 IH]; intros [|b l2] st Hlen;
    try done. simpl.
  destruct (time_step nx alpha dx dt a st) as [st'|e] eqn:Hst;
    unfold time_step in *; rewrite Hst; simpl; [|done].
  apply IH. by injection Hlen.
Qed.

Lemma time_step_eq nx alpha dx dt (n : Z) T hist :
  time_step nx alpha dx dt n (T, hist)
  = T1 ← update_temperature nx T alpha dx dt; Ok (T1, hist ++ [T1]).
Proof. done. Qed.

(** Records are appended to whatever history the loop starts with. *)
Lemma for_each_time_step_history nx alpha dx dt (l : list Z) T hist :
  for_each l (time_step nx alpha dx dt) (T, hist)
  = st ← for_each l (time_step nx alpha dx dt) (T, []);
    Ok (st.1, hist ++ st.2).
Proof.
  revert T hist. induction l as [|a l IH]; intros T hist; simpl.
  { by rewrite app_nil_r. }
  rewrite !time_step_eq.
  destruct (update_temperature nx T alpha dx dt) as [T1|e]; simpl; [|done].
  rewrite (IH T1 (hist ++ [T1])), (IH T1 [T1]).
  destruct (for_each l _ (T1, [])) as [[T' h]|e]; simpl; [|done].
  by rewrite <- app_assoc.
Qed.

Lemma for_each_time_step_last nx alpha dx dt (l : list Z) T hist T' hist' :
  l ≠ [] →
  for_each l (time_step nx alpha dx dt) (T, hist) = Ok (T', hist') →
  list.last hist' = Some T'.
Proof.
  revert T hist. induction l as [|a l IH]; intros T hist Hne; [done|]. simpl.
  rewrite time_step_eq.
  destruct (update_temperature nx T alpha dx dt) as [T1|e]; simpl; [|done].
  destruct l as [|b l].
  - simpl. intros [= <- <-]. by rewrite last_snoc.
  - by apply IH.
Qed.

Lemma stepper_iter_short nx T alpha dx dt (n : nat) :
  nx ≤ 2 → stepper_iter nx alpha dx dt n T = Ok T.
Proof.
  intros Hnx. induction n as [|n IH]; [done|]. simpl. rewrite IH. simpl.
  by apply update_temperature_short.
Qed.

Lemma initial_state_lookup (cfg : Config F) (i : nat) :
  Z.of_nat i < nx cfg →
  initial_state cfg !! i
  = Some (if decide (Z.of_nat i = nx cfg - 1) then T_right cfg
          else if decide (i = 0%nat) then T_left cfg
          else fmul fone (T_initial cfg)).
Proof.
  intros Hi. unfold initial_state. cbv zeta.
  destruct (decide (Z.of_nat i = nx cfg - 1)) as [Hlast|Hlast].
  { replace (Z.to_nat (nx cfg) - 1)%nat with i by lia.
    apply list_lookup_insert_eq. rewrite length_insert, length_replicate. lia. }
  rewrite list_lookup_insert_ne by lia.
  destruct (decide (i = 0%nat)) as [->|Hfirst].
  { apply list_lookup_insert_eq. rewrite length_replicate. lia. }
  rewrite list_lookup_insert_ne by done.
  apply lookup_replicate_2. lia.
Qed.
End LoopCases.

(** X4 (runs compose).  Running [n1 + n2] steps is running [n1] steps and
    then [n2] steps from the state reached: the final state is the same and
    the history is the first history followed by the second; an exception in
    either part is the exception of the whole. *)
Theorem time_loop_compose {F : Type} `{Float64 F}
    (nx n1 n2 : Z) (T : list F) (alpha dx dt : F) :
  0 ≤ n1 → 0 ≤ n2 →
  time_loop nx (n1 + n2) T alpha dx dt
  = st1 ← time_loop nx n1 T alpha dx dt;
    st2 ← time_loop nx n2 st1.1 alpha dx dt;
    Ok (st2.1, st1.2 ++ st2.2).
Proof.
  intros Hn1 Hn2. unfold time_loop.
  rewrite (for_each_time_step_length nx alpha dx dt
             (range 0 (n1 + n2)) (range 0 n1 ++ range 0 n2))
    by (rewrite length_app, !length_range; lia).
  rewrite for_each_app.
  destruct (for_each (range 0 n1) _ (T, [])) as [[T1 h1]|e]; simpl; [|done].
  apply for_each_time_step_history.
Qed.

(** X5 (the final field is the last record).  When the loop ends, the
    variable [T] holds the last element of [T_history] if at least one step
    was taken, and the initial field, with an empty history, otherwise. *)
Theorem final_state_is_last_record {F : Type} `{Float64 F}
    (nx nt : Z) (T T' : list F) (hist : list (list F)) (alpha dx dt : F) :
  time_loop nx nt T alpha dx dt = Ok (T', hist) →
  if decide (1 ≤ nt) then hist !! (length hist - 1)%nat = Some T'
  else T' = T ∧ hist = [].
Proof.
  intros Hloop. destruct (decide (1 ≤ nt)) as [Hnt|Hnt].
  - unfold time_loop in Hloop.
    rewrite Nat.sub_1_r, <- last_lookup.
    eapply for_each_time_step_last; [|done].
    intros Hnil. apply (f_equal length) in Hnil.
    rewrite length_range in Hnil. simpl in Hnil. lia.
  - rewrite time_loop_empty in Hloop by lia. by injection Hloop as <- <-.
Qed.

(** X6 (two grid points).  With [nx = 2] there is no interior cell: whatever
    [alpha], [dt] and [dx] (zero included), the run does not fail in the loop
    and every record is [[T_left, T_right]]. *)
Theorem two_point_grid {F : Type} `{Float64 F}
    (cfg : Config F) (dx : F) (nt : Z) :
  nx cfg = 2 → dx_of cfg = Ok dx → nt_of cfg = Ok nt →
  T_history cfg = Ok (replicate (Z.to_nat nt) [T_left cfg; T_right cfg]).
Proof.
  intros Hnx Hdx Hnt. unfold T_history, simulate, setup.
  rewrite Hdx, Hnt, T_init_Ok by lia. simpl.
  assert (initial_state cfg = [T_left cfg; T_right cfg]) as ->.
  { unfold initial_state. by rewrite Hnx. }
  rewrite time_loop_history, Hnx.
  apply mapM_Ok_lookup. rewrite length_replicate, length_seq. split; [done|].
  intros k x y _ [-> _]%lookup_replicate. by apply stepper_iter_short.
Qed.

(** X8 (the initial field, cell by cell).  For [nx >= 1] step 3 of the
    script gives [nx] cells: the last one holds [T_right], the first one
    [T_left] unless it is also the last (with one grid point the right
    boundary wins), every other one [1.0 * T_initial]. *)
Theorem initial_field {F : Type} `{Float64 F} (cfg : Config F) :
  1 ≤ nx cfg →
  ∃ T, T_init cfg = Ok T ∧ Z.of_nat (length T) = nx cfg ∧
    ∀ i : nat, Z.of_nat i < nx cfg →
      T !! i = Some (if decide (Z.of_nat i = nx cfg - 1) then T_right cfg
                     else if decide (i = 0%nat) then T_left cfg
                     else fmul fone (T_initial cfg)).
Proof.
  intros Hnx. exists (initial_state cfg). split; [by apply T_init_Ok|].
  split; [rewrite length_initial_state; lia|].
  intros i Hi. by apply initial_state_lookup.
Qed.

(** ** The whole script and what is handed to the plot *)

Section RunCases.
Context {F : Type} `{Float64 F}.
Implicit Types (T : list F) (alpha dx dt r : F) (cfg : Config F).

(** With three grid points or more on an array of [nx] cells, an exception
    of the coefficient ends the loop in its first pass. *)
Lemma time_loop_coefficient_raises nx nt T alpha dx dt e :
  3 ≤ nx → Z.of_nat (length T) = nx → 1 ≤ nt →
  coefficient alpha dx dt = Raise e →
  time_loop nx nt T alpha dx dt = Raise e.
Proof.
  intros Hnx Hlen Hnt Hr. unfold time_loop. rewrite range_nonneg by done.
  rewrite Z.sub_0_r. change (Z.to_nat 0) with 0%nat.
  replace (Z.to_nat nt) with (S (Z.to_nat (nt - 1))) by lia.
  simpl. rewrite time_step_eq.
  by rewrite (update_temperature_coefficient_raises _ _ _ _ _ e)
    by (done || lia).
Qed.

(** With at most two grid points every pass records the field it found. *)
Lemma time_loop_short nx nt T alpha dx dt :
  nx ≤ 2 →
  time_loop nx nt T alpha dx dt = Ok (T, replicate (Z.to_nat nt) T).
Proof.
  intros Hnx. unfold time_loop. rewrite range_nonneg by done.
  rewrite Z.sub_0_r. change (Z.to_nat 0) with 0%nat.
  rewrite time_loop_iterates.
  assert (mapM (λ k, stepper_iter nx alpha dx dt (S k) T) (seq 0 (Z.to_nat nt))
          = Ok (replicate (Z.to_nat nt) T)) as ->.
  { apply mapM_Ok_lookup. rewrite length_replicate, length_seq.
    split; [done|].
    intros k x y _ [-> _]%lookup_replicate. by apply stepper_iter_short. }
  simpl. by rewrite stepper_iter_short.
Qed.

(** One curve: the row of the time point, then its label. *)
Lemma plot_curve_lookup dt (f : nat → list F) (n : nat) (tp : Z) :
  0 ≤ tp < Z.of_nat n →
  plot_curve dt (f <$> seq 0 n) tp
  = t ← of_int tp; Ok (fmul t dt, f (Z.to_nat tp)).
Proof.
  intros Htp. unfold plot_curve.
  rewrite <- (Z2Nat.id tp) at 1 by lia.
  rewrite (getitem_nat _ _ (f (Z.to_nat tp))); [done|].
  rewrite list_lookup_fmap, lookup_seq_lt by lia. done.
Qed.
End RunCases.

(** X16 (outcome of a run).  For every arithmetic, once [dx] and [nt]
    evaluate and [nx >= 1]: with three grid points or more and at least one
    time step, steps 2 to 5 of the script raise the exception of
    [alpha * dt / dx**2] if it has one, in the first step, and otherwise end
    with the iterates of the update rule in [T] and [T_history]; with fewer
    grid points or no time step the coefficient is never computed and they
    end with the initial field, recorded once per step.  In the script the
    stepper never runs off its array. *)
Theorem run_outcome {F : Type} `{Float64 F}
    (cfg : Config F) (dx : F) (nt : Z) :
  1 ≤ nx cfg → dx_of cfg = Ok dx → nt_of cfg = Ok nt →
  simulate cfg =
    if decide (3 ≤ nx cfg ∧ 1 ≤ nt)
    then match coefficient (alpha cfg) dx (dt cfg) with
         | Raise e => Raise e
         | Ok r =>
             Ok (Nat.iter (Z.to_nat nt) (ftcs_step r) (initial_state cfg),
                 (λ k, Nat.iter (S k) (ftcs_step r) (initial_state cfg))
                   <$> seq 0 (Z.to_nat nt))
         end
    else Ok (initial_state cfg, replicate (Z.to_nat nt) (initial_state cfg)).
Proof.
  intros Hnx Hdx Hnt. unfold simulate, setup.
  rewrite Hdx, Hnt, T_init_Ok by done. simpl.
  assert (Z.of_nat (length (initial_state cfg)) = nx cfg) as Hlen
    by (rewrite length_initial_state; lia).
  destruct (decide (3 ≤ nx cfg ∧ 1 ≤ nt)) as [[Hthree Hsome]|Hnot].
  - destruct (coefficient (alpha cfg) dx (dt cfg)) as [r|e] eqn:Hr.
    + by apply time_loop_exact.
    + by apply time_loop_coefficient_raises.
  - destruct (decide (nx cfg ≤ 2)) as [Hs|Hl].
    + by apply time_loop_short.
    + rewrite time_loop_empty by lia.
      by replace (Z.to_nat nt) with 0%nat by lia.
Qed.

(** X7 (what the curves show).  For every arithmetic, for a run whose
    [dx], [nt] and coefficient evaluate: with [nt >= 1] the script draws
    one curve for each of the time points [0, nt // 4, nt // 2, nt - 1], all
    of them rows of the history; the curve of time point [tp] is labelled
    with the time [tp * dt] and is the field after [tp + 1] steps, so the
    labels lag one step behind and the initial field is not drawn.  With
    [nt <= 0] the history is empty and the first [T_history[0]] raises
    [IndexError]. *)
Theorem curves_lag_one_step {F : Type} `{Float64 F}
    (cfg : Config F) (dx : F) (nt : Z) (r : F) :
  1 ≤ nx cfg → dx_of cfg = Ok dx → nt_of cfg = Ok nt →
  coefficient (alpha cfg) dx (dt cfg) = Ok r →
  plotted_curves cfg =
    if decide (1 ≤ nt)
    then mapM (λ tp : Z,
                 t ← of_int tp;
                 Ok (fmul t (dt cfg),
                     Nat.iter (S (Z.to_nat tp)) (ftcs_step r)
                       (initial_state cfg)))
           (time_points nt)
    else Raise (IndexError 0 0).
Proof.
  intros Hnx Hdx Hnt Hr. unfold plotted_curves, setup.
  rewrite Hdx, Hnt, T_init_Ok by done. simpl.
  rewrite (time_loop_exact _ _ _ _ _ _ r)
    by (done || rewrite length_initial_state; lia).
  simpl. destruct (decide (1 ≤ nt)) as [Hsome|Hnone].
  - unfold time_points. simpl.
    assert (0 ≤ nt `div` 4 < nt) as H4.
    { split; [apply Z.div_pos; lia|apply Z.div_lt_upper_bound; lia]. }
    assert (0 ≤ nt `div` 2 < nt) as H2.
    { split; [apply Z.div_pos; lia|apply Z.div_lt_upper_bound; lia]. }
    rewrite !(plot_curve_lookup (dt cfg)
                (λ k, ftcs_step r (Nat.iter k (ftcs_step r) (initial_state cfg))))
      by lia.
    done.
  - by replace (Z.to_nat nt) with 0%nat by lia.
Qed.

(** ** The structural properties at concrete inputs *)

Section StructuralInstances.
Import Exact ExactFacts.
Local Open Scope Qc_scope.

Lemma stepper_preserves_frame_witness :
  length (ftcs_step (dec 1 10000 * dec 1 100 / (dec 1 2 * dec 1 2))
            [dec 100 1; dec 25 1; dec 50 1]) = 3%nat
  ∧ ftcs_step (dec 1 10000 * dec 1 100 / (dec 1 2 * dec 1 2))
      [dec 100 1; dec 25 1; dec 50 1] !! 0%nat = Some (dec 100 1)
  ∧ ftcs_step (dec 1 10000 * dec 1 100 / (dec 1 2 * dec 1 2))
      [dec 100 1; dec 25 1; dec 50 1] !! 2%nat = Some (dec 50 1)
  ∧ ∀ i : nat, (3 - 1 ≤ Z.of_nat i)%Z →
      ftcs_step (dec 1 10000 * dec 1 100 / (dec 1 2 * dec 1 2))
        [dec 100 1; dec 25 1; dec 50 1] !! i
      = [dec 100 1; dec 25 1; dec 50 1] !! i.
Proof.
  apply (stepper_preserves_frame 3 [dec 100 1; dec 25 1; dec 50 1] _
           (dec 1 10000) (dec 1 2) (dec 1 100)).
  vm_compute. reflexivity.
Defined.

Lemma domain_of_dependence_witness :
  ftcs_step (dec 1 10000 * dec 1 100 / (dec 1 3 * dec 1 3))
    [dec 100 1; dec 25 1; dec 25 1; dec 50 1] !! 1%nat
  = ftcs_step (dec 1 10000 * dec 1 100 / (dec 1 3 * dec 1 3))
      [dec 100 1; dec 25 1; dec 25 1; dec 70 1] !! 1%nat.
Proof.
  apply (domain_of_dependence 4 (dec 1 10000) (dec 1 3) (dec 1 100)
           (dec 1 10000 * dec 1 100 / (dec 1 3 * dec 1 3)) 1 1
           [dec 100 1; dec 25 1; dec 25 1; dec 50 1]
           [dec 100 1; dec 25 1; dec 25 1; dec 70 1]).
  - vm_compute. reflexivity.
  - reflexivity.
  - reflexivity.
  - intros [|[|[|j]]] Hlo Hhi; simpl; try reflexivity; lia.
  - vm_compute. reflexivity.
  - vm_compute. reflexivity.
Defined.

Lemma time_loop_compose_witness :
  time_loop 3 (1 + 1) [dec 100 1; dec 25 1; dec 50 1]
    (dec 1 10000) (dec 1 2) (dec 1 100)
  = st1 ← time_loop 3 1 [dec 100 1; dec 25 1; dec 50 1]
            (dec 1 10000) (dec 1 2) (dec 1 100);
    st2 ← time_loop 3 1 st1.1 (dec 1 10000) (dec 1 2) (dec 1 100);
    Ok (st2.1, st1.2 ++ st2.2).
Proof.
  apply (time_loop_compose 3 1 1); lia.
Defined.

Lemma final_state_is_last_record_witness :
  if decide (1 ≤ 1)%Z
  then [ftcs_step (dec 1 10000 * dec 1 100 / (dec 1 2 * dec 1 2))
          [dec 100 1; dec 25 1; dec 50 1]] !! (1 - 1)%nat
       = Some (ftcs_step (dec 1 10000 * dec 1 100 / (dec 1 2 * dec 1 2))
                 [dec 100 1; dec 25 1; dec 50 1])
  else ftcs_step (dec 1 10000 * dec 1 100 / (dec 1 2 * dec 1 2))
         [dec 100 1; dec 25 1; dec 50 1]
       = [dec 100 1; dec 25 1; dec 50 1]
       ∧ [ftcs_step (dec 1 10000 * dec 1 100 / (dec 1 2 * dec 1 2))
            [dec 100 1; dec 25 1; dec 50 1]] = [].
Proof.
  refine (final_state_is_last_record 3 1 [dec 100 1; dec 25 1; dec 50 1]
            (ftcs_step (dec 1 10000 * dec 1 100 / (dec 1 2 * dec 1 2))
               [dec 100 1; dec 25 1; dec 50 1])
            [ftcs_step (dec 1 10000 * dec 1 100 / (dec 1 2 * dec 1 2))
               [dec 100 1; dec 25 1; dec 50 1]]
            (dec 1 10000) (dec 1 2) (dec 1 100) _).
  vm_compute. reflexivity.
Defined.

Lemma initial_field_witness :
  ∃ T, T_init shipped = Ok T ∧ Z.of_nat (length T) = nx shipped ∧
    ∀ i : nat, (Z.of_nat i < nx shipped)%Z →
      T !! i = Some (if decide (Z.of_nat i = nx shipped - 1)%Z
                     then T_right shipped
                     else if decide (i = 0%nat) then T_left shipped
                     else fmul fone (T_initial shipped)).
Proof.
  apply (initial_field shipped). simpl. lia.
Defined.
End StructuralInstances.

Section Binary64Instances.
Import Binary64.
#[local] Set Warnings "-inexact-float".
Local Open Scope float_scope.

Lemma two_point_grid_witness :
  T_history two_cells
  = Ok (replicate (Z.to_nat 3) [T_left two_cells; T_right two_cells]).
Proof.
  apply (two_point_grid two_cells 0 3).
  - reflexivity.
  - vm_compute. reflexivity.
  - vm_compute. reflexivity.
Defined.

Lemma run_outcome_witness :
  simulate four_steps =
    if decide ((3 ≤ nx four_steps)%Z ∧ (1 ≤ 4)%Z)
    then match coefficient (alpha four_steps) 1 (dt four_steps) with
         | Raise e => Raise e
         | Ok r =>
             Ok (Nat.iter (Z.to_nat 4) (ftcs_step r) (initial_state four_steps),
                 (λ k, Nat.iter (S k) (ftcs_step r) (initial_state four_steps))
                   <$> seq 0 (Z.to_nat 4))
         end
    else Ok (initial_state four_steps,
             replicate (Z.to_nat 4) (initial_state four_steps)).
Proof.
  refine (run_outcome four_steps 1 4 _ _ _).
  - simpl. lia.
  - vm_compute. reflexivity.
  - vm_compute. reflexivity.
Defined.

Lemma curves_lag_one_step_witness :
  plotted_curves four_steps =
    if decide (1 ≤ 4)%Z
    then mapM (λ tp : Z,
                 t ← of_int tp;
                 Ok (fmul t (dt four_steps),
                     Nat.iter (S (Z.to_nat tp)) (ftcs_step 0.25)
                       (initial_state four_steps)))
           (time_points 4)
    else Raise (IndexError 0 0).
Proof.
  refine (curves_lag_one_step four_steps 1 4 0.25 _ _ _ _).
  - simpl. lia.
  - vm_compute. reflexivity.
  - vm_compute. reflexivity.
  - vm_compute. reflexivity.
Defined.
End Binary64Instances.
